(** * symbolinfo.cpp: symbol enumeration, resolution and synchronization

    A shallow embedding of [src/dbg/symbolinfo.cpp] (x64dbg).  The functions
    of that file are translated one by one, keeping their names.  What
    the file calls but does not define is either an argument of the
    development (the import-table walker, the demangler, the label store, the
    [%p] conversion, the symbol engine) or a small definition whose comment
    says where it comes from (the module directory, the SymbolSource). *)

From Stdlib Require Import ZArith List String Ascii Bool Lia.
Import ListNotations.
Local Open Scope string_scope.
Local Open Scope list_scope.
Local Open Scope Z_scope.

(** ** Outcomes

    Two things can end a call without a result: dereferencing a null pointer,
    and the invalid-parameter handler of the secure CRT functions
    ([strcpy_s], [strcat_s], [sprintf_s] on a destination that is too small). *)

Inductive Fault : Type :=
| NullDereference
| InvalidParameter.

Inductive Exec (A : Type) : Type :=
| Done (a : A)
| Crash (f : Fault).

Arguments Done {A} a.
Arguments Crash {A} f.

Definition bind {A B : Type} (m : Exec A) (k : A -> Exec B) : Exec B :=
  match m with
  | Done a => k a
  | Crash f => Crash f
  end.

Notation "x <- m ;; k" := (bind m (fun x => k))
  (at level 61, m at next level, right associativity).

(** ** The C runtime functions the file uses *)

Module CRT.

Definition code (c : ascii) : Z := Z.of_nat (nat_of_ascii c).

(** [tolower] in the C locale. *)
Definition tolower (c : ascii) : Z :=
  let n := code c in
  if (65 <=? n) && (n <=? 90) then n + 32 else n.

(** The characters of a [std::string] seen through [c_str()] by a function
    that reads a NUL-terminated string: everything before the first NUL. *)
Fixpoint c_str (s : string) : string :=
  match s with
  | EmptyString => EmptyString
  | String c r => if (code c =? 0) then EmptyString else String c (c_str r)
  end.

Fixpoint take (n : nat) (s : string) : string :=
  match n, s with
  | O, _ => EmptyString
  | S _, EmptyString => EmptyString
  | S n', String c r => String c (take n' r)
  end.

(** [strncpy_s(dest, destsz, src, _TRUNCATE)]: as much of [src] as fits
    in [destsz] characters including the terminator. *)
Definition strncpy_s_TRUNCATE (destsz : nat) (src : string) : string :=
  take (destsz - 1) src.

(** [strcpy_s(dest, src)] on a destination of [destsz] characters. *)
Definition strcpy_s (destsz : nat) (src : string) : Exec string :=
  if (String.length src <? destsz)%nat then Done src else Crash InvalidParameter.

(** [strcat_s(dest, src)] on a destination of [destsz] characters holding
    [dest]. *)
Definition strcat_s (destsz : nat) (dest src : string) : Exec string :=
  if (String.length dest + String.length src <? destsz)%nat
  then Done (dest ++ src)%string else Crash InvalidParameter.

(** [sprintf_s(buffer, ...)] on a buffer of [destsz] characters, given the
    formatted text. *)
Definition sprintf_s (destsz : nat) (formatted : string) : Exec string :=
  if (String.length formatted <? destsz)%nat
  then Done formatted else Crash InvalidParameter.

Fixpoint strcmp (a b : string) : Z :=
  match a, b with
  | EmptyString, EmptyString => 0
  | EmptyString, String d _ => 0 - code d
  | String c _, EmptyString => code c
  | String c a', String d b' =>
      if code c =? code d then strcmp a' b' else code c - code d
  end.

Fixpoint strncmp (a b : string) (n : nat) {struct n} : Z :=
  match n with
  | O => 0
  | S n' =>
      match a, b with
      | EmptyString, EmptyString => 0
      | EmptyString, String d _ => 0 - code d
      | String c _, EmptyString => code c
      | String c a', String d b' =>
          if code c =? code d then strncmp a' b' n' else code c - code d
      end
  end.

Fixpoint _strnicmp (a b : string) (n : nat) {struct n} : Z :=
  match n with
  | O => 0
  | S n' =>
      match a, b with
      | EmptyString, EmptyString => 0
      | EmptyString, String d _ => 0 - tolower d
      | String c _, EmptyString => tolower c
      | String c a', String d b' =>
          if tolower c =? tolower d then _strnicmp a' b' n'
          else tolower c - tolower d
      end
  end.

(** [strstr(haystack, needle)]: the tail of [haystack] that starts at the
    first occurrence of [needle], or null. *)
Fixpoint strstr (haystack needle : string) : option string :=
  if String.prefix needle haystack then Some haystack
  else match haystack with
       | EmptyString => None
       | String _ rest => strstr rest needle
       end.

End CRT.

(** ** Machine integers *)

(** x64dbg is built twice, as x32dbg and as x64dbg; [duint] is the unsigned
    integer of pointer width. *)
Inductive Arch : Type := x32 | x64.

Definition duint_bits (arch : Arch) : Z :=
  match arch with x32 => 32 | x64 => 64 end.

Definition duint_cast (arch : Arch) (z : Z) : Z := z mod 2 ^ duint_bits arch.

Definition duint_add (arch : Arch) (a b : Z) : Z := duint_cast arch (a + b).
Definition duint_sub (arch : Arch) (a b : Z) : Z := duint_cast arch (a - b).

(** [(int)x] for a [size_t]: the low 32 bits, read as a signed number. *)
Definition int_cast (z : Z) : Z := (z + 2 ^ 31) mod 2 ^ 32 - 2 ^ 31.

(** [~x] converted to [DWORD]. *)
Definition DWORD_not (z : Z) : Z := Z.lnot z mod 2 ^ 32.

(** Constants of the Windows SDK and of the bridge header. *)
Definition MAX_SYM_NAME : nat := 2000.
Definition MAX_PATH : nat := 260.
Definition MAX_MODULE_SIZE : nat := 256.
Definition MAX_STRING_SIZE : nat := 512.
Definition SYMOPT_IGNORE_CVREC : Z := 128.

(** ** Data

    A [char*] argument or field is modelled by the characters before its
    terminator, a pointer that may be null by an [option]. *)

(** An entry of a module's indexed symbol table; the address is relative to
    the module base. *)
Record SymbolInfo : Type := {
  info_addr : Z;
  decoratedName : string;
  undecoratedName : string
}.

Record LineInfo : Type := {
  lineNumber : Z;
  sourceFile : string
}.

(** An object behind a [SymbolSourceBase*].  [is_EmptySymbolSource] says
    whether the object is the global [EmptySymbolSource], which the code
    recognises by its address; the three other fields are the answers of
    the virtual methods the code calls. *)
Record SymbolSourceBase : Type := {
  is_EmptySymbolSource : bool;
  isOpen : bool;
  indexed : list SymbolInfo;
  findSourceLineInfo : Z -> option LineInfo
}.

Record MODINFO : Type := {
  base : Z;
  size : Z;
  entry : Z;
  name : string;
  extension : string;
  symbols : option SymbolSourceBase
}.

(** What the visitor of an enumeration receives. *)
Record SYMBOLINFO : Type := {
  addr : Z;
  decoratedSymbol : option string;
  undecoratedSymbol : option string;
  isImported : bool
}.

(** The visitor.  [U] is what its [void* user] argument points to; the
    visitor may change it and answers continue ([true]) or stop ([false]). *)
Definition CBSYMBOLENUM (U : Type) : Type := SYMBOLINFO -> U -> bool * U.

(** What the import-table walker passes to its callback. *)
Record IMPORT : Type := {
  import_base : Z;
  import_addr : Z;
  import_name : string;
  import_moduleName : string
}.

Record SYMBOLMODULEINFO : Type := {
  module_base : Z;
  module_name : string
}.

(** The argument list of [GuiSymbolUpdateModuleList]. *)
Record GuiModuleList : Type := {
  gui_count : Z;
  gui_modules : option (list SYMBOLMODULEINFO)
}.

(** Modelled from the spec: [SymbolSourceBase::enumSymbols], which is not in
    this file.  The spec gives [enumSymbols(visitor) -> bool (visitor
    returns continue/stop)]: the entries are visited in order until the
    visitor answers stop. *)
Fixpoint enumSymbols_from {S : Type} (entries : list SymbolInfo)
    (cbEnum : SymbolInfo -> S -> bool * S) (s : S) : bool * S :=
  match entries with
  | [] => (true, s)
  | info :: rest =>
      let (go_on, s') := cbEnum info s in
      if go_on then enumSymbols_from rest cbEnum s' else (false, s')
  end.

Definition enumSymbols {S : Type} (sym : SymbolSourceBase)
    (cbEnum : SymbolInfo -> S -> bool * S) (s : S) : bool * S :=
  enumSymbols_from (indexed sym) cbEnum s.

(** The pseudo entry point symbol of [SymEnum]: every field but the two
    assigned ones is zero. *)
Definition entry_point_symbol (entry_addr : Z) : SYMBOLINFO :=
  {| addr := entry_addr;
     decoratedSymbol := Some "OptionalHeader.AddressOfEntryPoint";
     undecoratedSymbol := None;
     isImported := false |}.

Section Symbols.

Variable arch : Arch.

(** The module directory: the loaded modules, in the order [ModEnum] visits
    them. *)
Variable modules : list MODINFO.

(** [apienumimports]: what the import-table walker yields for a module. *)
Variable imports_of : Z -> list IMPORT.

(** [UnDecorateSymbolName] in [UNDNAME_COMPLETE] mode: the text it leaves in
    the output buffer when it succeeds, nothing when it fails. *)
Variable UnDecorateSymbolName : string -> option string.

(** Modelled from the spec: [ModInfoFromAddr], "lookup
    module-by-containing-address". *)
Definition ModInfoFromAddr (Address : Z) : option MODINFO :=
  find (fun m => (base m <=? Address) && (Address <? base m + size m)) modules.

(** Modelled from the spec: [ModEntryFromAddr], "lookup entry-point address
    by address"; zero when no module contains the address. *)
Definition ModEntryFromAddr (Address : Z) : Z :=
  match ModInfoFromAddr Address with
  | Some m => entry m
  | None => 0
  end.

(** Modelled from the spec: [ModNameFromAddr], "lookup module-by-address
    returning name"; the flag asks for the extension as well. *)
Definition ModNameFromAddr (Address : Z) (Extension : bool) : option string :=
  match ModInfoFromAddr Address with
  | Some m => Some (if Extension then (name m ++ extension m)%string else name m)
  | None => None
  end.

(** Modelled from the spec: [ModEnum], "enumerate all modules".  The
    callback may end the call. *)
Fixpoint ModEnum_from {S : Type} (l : list MODINFO)
    (cbEnum : MODINFO -> S -> Exec S) (s : S) : Exec S :=
  match l with
  | [] => Done s
  | m :: rest => s' <- cbEnum m s ;; ModEnum_from rest cbEnum s'
  end.

Definition ModEnum {S : Type} (cbEnum : MODINFO -> S -> Exec S) (s : S) : Exec S :=
  ModEnum_from modules cbEnum s.

(** *** SymEnumImports *)

Section Enumeration.

Variable U : Type.

(** The lambda handed to [apienumimports]. *)
Definition SymEnumImports_lambda (EnumCallback : CBSYMBOLENUM U)
    (imp : IMPORT) (user : U) : U :=
  let decorated := CRT.strncpy_s_TRUNCATE MAX_SYM_NAME (import_name imp) in
  let undecorated :=
    match UnDecorateSymbolName (import_name imp) with
    | None => None
    | Some text => if CRT.strcmp decorated text =? 0 then None else Some text
    end in
  snd (EnumCallback {| addr := import_addr imp;
                       decoratedSymbol := Some decorated;
                       undecoratedSymbol := undecorated;
                       isImported := true |} user).

Definition SymEnumImports (Base : Z) (EnumCallback : CBSYMBOLENUM U)
    (user : U) : U :=
  fold_left (fun u imp => SymEnumImports_lambda EnumCallback imp u)
            (imports_of Base) user.

(** *** SymEnum *)

(** The lambda handed to [enumSymbols]. *)
Definition SymEnum_lambda (Base : Z) (cbSymbolEnum : CBSYMBOLENUM U)
    (info : SymbolInfo) (user : U) : bool * U :=
  let curSymbol_addr := duint_add arch Base (info_addr info) in
  let decorated :=
    CRT.strncpy_s_TRUNCATE MAX_SYM_NAME (CRT.c_str (decoratedName info)) in
  let undecorated :=
    CRT.strncpy_s_TRUNCATE MAX_SYM_NAME (CRT.c_str (undecoratedName info)) in
  let bad_ordinal :=
    match CRT.strstr decorated "Ordinal" with
    | Some _ => curSymbol_addr =? Base
    | None => false
    end in
  if bad_ordinal then (true, user)
  else
    let same := String.eqb (decoratedName info) (undecoratedName info) in
    let curSymbol_decorated := if same then undecorated else decorated in
    let curSymbol_undecorated := if same then None else Some undecorated in
    let curSymbol :=
      {| addr := curSymbol_addr;
         decoratedSymbol := Some curSymbol_decorated;
         undecoratedSymbol := curSymbol_undecorated;
         isImported := CRT.strncmp curSymbol_decorated "__imp_" 6 =? 0 |} in
    (true, snd (cbSymbolEnum curSymbol user)).

Definition SymEnum (Base : Z) (EnumCallback : CBSYMBOLENUM U)
    (UserData : U) : Exec U :=
  user1 <-
    match ModInfoFromAddr Base with
    | Some modInfo =>
        match symbols modInfo with
        | None => Crash NullDereference
        | Some sym =>
            if isOpen sym
            then Done (snd (enumSymbols sym (SymEnum_lambda Base EnumCallback) UserData))
            else Done UserData
        end
    | None => Done UserData
    end ;;
  let symbol := entry_point_symbol (ModEntryFromAddr Base) in
  let user2 :=
    if addr symbol =? 0 then user1 else snd (EnumCallback symbol user1) in
  Done (SymEnumImports Base EnumCallback user2).

Definition SymEnumFromCache (Base : Z) (EnumCallback : CBSYMBOLENUM U)
    (UserData : U) : Exec U :=
  SymEnum Base EnumCallback UserData.

End Enumeration.

(** *** SymGetModuleList, SymUpdateModuleList *)

Definition SymGetModuleList_lambda (mod_ : MODINFO)
    (List : list SYMBOLMODULEINFO) : Exec (list SYMBOLMODULEINFO) :=
  curMod_name <- CRT.strcpy_s MAX_MODULE_SIZE (name mod_) ;;
  curMod_name <- CRT.strcat_s MAX_MODULE_SIZE curMod_name (extension mod_) ;;
  Done (List ++ [{| module_base := base mod_; module_name := curMod_name |}]).

Definition SymGetModuleList (List : list SYMBOLMODULEINFO)
    : Exec (bool * list SYMBOLMODULEINFO) :=
  List' <- ModEnum SymGetModuleList_lambda List ;;
  Done (true, List').

Definition SymUpdateModuleList : Exec GuiModuleList :=
  r <- SymGetModuleList [] ;;
  let (ok, modList) := r in
  if negb ok
  then Done {| gui_count := 0; gui_modules := None |}
  else
    let moduleCount := Z.of_nat (List.length modList) in
    Done {| gui_count := int_cast moduleCount; gui_modules := Some modList |}.

End Symbols.

(** ** The symbol engine

    The platform symbol engine (dbghelp, reached through the [SafeSym...]
    wrappers) and [GetModuleFileNameExW] are outside the program.  They are
    modelled by a test double: the engine has two global settings, the
    option flags and the search path, and keeps the list of the calls it
    received; whether a call succeeds and what it answers is decided by the
    double from the calls made so far.  Setting the option flags cannot
    fail and is the only call that changes them; a successful call that sets
    the search path is the only call that changes the search path; a
    successful read of the search path fills the caller's buffer with the
    path, cut to what the buffer holds beside its terminator. *)

Inductive SYM_TYPE : Type :=
| SymNone | SymCoff | SymCv | SymPdb | SymExport
| SymDeferred | SymSym | SymDia | SymVirtual.

Inductive Call : Type :=
| CSymGetSearchPathW
| CSymSetSearchPathW (SearchPath : string)
| CSymGetOptions
| CSymSetOptions (SymOptions : Z)
| CGetModuleFileNameExW (hModule : Z)
| CSymUnloadModule64 (BaseOfDll : Z)
| CSymLoadModuleExW (ImageName : string) (BaseOfDll : Z)
| CSymGetModuleInfoW64 (qwAddr : Z)
| CSymFromName (Name : string).

Record EngineDouble : Type := {
  succeeds : list Call -> Call -> bool;
  module_file_name : list Call -> Z -> string;
  symbol_type : list Call -> Z -> SYM_TYPE;
  symbol_address : list Call -> string -> Z
}.

Record Engine : Type := {
  SymOptions : Z;
  SearchPath : string;
  calls : list Call
}.

Definition received (c : Call) (e : Engine) : Engine :=
  {| SymOptions := SymOptions e;
     SearchPath := SearchPath e;
     calls := calls e ++ [c] |}.

Definition Call_eq_dec (a b : Call) : {a = b} + {a <> b}.
Proof.
  decide equality; auto using string_dec, Z.eq_dec.
Defined.

Definition is_SymSetOptions (c : Call) : bool :=
  match c with CSymSetOptions _ => true | _ => false end.

Section Engine.

Variable arch : Arch.
Variable modules : list MODINFO.
Variable double : EngineDouble.

(** The global [szSymbolCachePath]. *)
Variable szSymbolCachePath : string.

(** Modelled from the spec: the [SafeSym...] wrappers of [dbghelp_safe.h],
    which are not in this file.  The spec lists what is consumed from the
    platform symbol engine: "load/unload module symbols by base address;
    query module info; name to address lookup; get/set global search path;
    get/set global options".  Each wrapper passes its call to the engine. *)
Definition SafeSymGetSearchPathW (SearchPathLength : nat) (e : Engine)
    : option string * Engine :=
  let ok := succeeds double (calls e) CSymGetSearchPathW in
  (if ok then Some (CRT.take (SearchPathLength - 1) (SearchPath e)) else None,
   received CSymGetSearchPathW e).

Definition SafeSymSetSearchPathW (path : string) (e : Engine) : bool * Engine :=
  let ok := succeeds double (calls e) (CSymSetSearchPathW path) in
  (ok, {| SymOptions := SymOptions e;
          SearchPath := if ok then path else SearchPath e;
          calls := calls e ++ [CSymSetSearchPathW path] |}).

Definition SafeSymGetOptions (e : Engine) : Z * Engine :=
  (SymOptions e, received CSymGetOptions e).

Definition SafeSymSetOptions (options : Z) (e : Engine) : Engine :=
  {| SymOptions := options;
     SearchPath := SearchPath e;
     calls := calls e ++ [CSymSetOptions options] |}.

Definition GetModuleFileNameExW (hModule : Z) (e : Engine)
    : option string * Engine :=
  let c := CGetModuleFileNameExW hModule in
  (if succeeds double (calls e) c
   then Some (module_file_name double (calls e) hModule) else None,
   received c e).

Definition SafeSymUnloadModule64 (BaseOfDll : Z) (e : Engine) : bool * Engine :=
  let c := CSymUnloadModule64 BaseOfDll in
  (succeeds double (calls e) c, received c e).

Definition SafeSymLoadModuleExW (ImageName : string) (BaseOfDll : Z)
    (e : Engine) : bool * Engine :=
  let c := CSymLoadModuleExW ImageName BaseOfDll in
  (succeeds double (calls e) c, received c e).

(** On success the answer is the [SymType] field of the module info. *)
Definition SafeSymGetModuleInfoW64 (qwAddr : Z) (e : Engine)
    : option SYM_TYPE * Engine :=
  let c := CSymGetModuleInfoW64 qwAddr in
  (if succeeds double (calls e) c
   then Some (symbol_type double (calls e) qwAddr) else None,
   received c e).

(** On success the answer is the [Address] field of the symbol, a
    [ULONG64]. *)
Definition SafeSymFromName (Name : string) (e : Engine) : option Z * Engine :=
  let c := CSymFromName Name in
  (if succeeds double (calls e) c
   then Some (symbol_address double (calls e) Name) else None,
   received c e).

(** *** SymDownloadAllSymbols *)

(** The two candidate search paths.  Wide strings are modelled by the same
    type as narrow ones, so [Utf8ToUtf16] disappears. *)
Definition search_paths (customSearchPath : string) : list string :=
  [""; customSearchPath].

(** The inner loop of [SymDownloadAllSymbols], over the candidate paths
    still to try for one module.  Every [continue] goes on with the next
    path, the [break] leaves the loop.  The messages written to the console
    are not modelled. *)
Fixpoint SymDownloadAllSymbols_paths (module : SYMBOLMODULEINFO)
    (paths : list string) (e : Engine) : Engine :=
  match paths with
  | [] => e
  | cur_path :: rest =>
      let (set_ok, e1) := SafeSymSetSearchPathW cur_path e in
      if negb set_ok then SymDownloadAllSymbols_paths module rest e1
      else
        let (modulePath, e2) := GetModuleFileNameExW (module_base module) e1 in
        match modulePath with
        | None => SymDownloadAllSymbols_paths module rest e2
        | Some modulePath =>
            let (unload_ok, e3) := SafeSymUnloadModule64 (module_base module) e2 in
            if negb unload_ok then SymDownloadAllSymbols_paths module rest e3
            else
              let (load_ok, e4) :=
                SafeSymLoadModuleExW modulePath (module_base module) e3 in
              if negb load_ok then SymDownloadAllSymbols_paths module rest e4
              else
                let (info, e5) :=
                  SafeSymGetModuleInfoW64 (module_base module) e4 in
                match info with
                | None => SymDownloadAllSymbols_paths module rest e5
                | Some info_SymType =>
                    let status :=
                      match info_SymType with
                      | SymPdb => true
                      | _ => false
                      end in
                    if status then e5
                    else SymDownloadAllSymbols_paths module rest e5
                end
        end
  end.

(** The outer loop, over the modules. *)
Definition SymDownloadAllSymbols_modules (modList : list SYMBOLMODULEINFO)
    (paths : list string) (e : Engine) : Engine :=
  fold_left (fun e' module => SymDownloadAllSymbols_paths module paths e')
            modList e.

Definition SymDownloadAllSymbols (SymbolStore : option string) (e : Engine)
    : Exec Engine :=
  let SymbolStore :=
    match SymbolStore with
    | None => "https://msdl.microsoft.com/download/symbols"
    | Some store => store
    end in
  r <- SymGetModuleList modules [] ;;
  let (listed, modList) := r in
  if negb listed then Done e
  else
    match modList with
    | [] => Done e
    | _ :: _ =>
        let (oldSearchPath, e1) := SafeSymGetSearchPathW MAX_PATH e in
        match oldSearchPath with
        | None => Done e1
        | Some oldSearchPath =>
            customSearchPath <-
              CRT.sprintf_s (MAX_PATH * 2)
                ("SRV*" ++ szSymbolCachePath ++ "*" ++ SymbolStore)%string ;;
            let (symOptions, e2) := SafeSymGetOptions e1 in
            let e3 :=
              SafeSymSetOptions
                (Z.land symOptions (DWORD_not SYMOPT_IGNORE_CVREC)) e2 in
            let e4 :=
              SymDownloadAllSymbols_modules modList
                (search_paths customSearchPath) e3 in
            let e5 := SafeSymSetOptions symOptions e4 in
            let (_, e6) := SafeSymSetSearchPathW oldSearchPath e5 in
            Done e6
        end
    end.

(** *** SymAddrFromName

    [Address] is the output pointer: null, or the cell it points to.  The
    result is the returned flag, the cell afterwards and the engine
    afterwards. *)
Definition SymAddrFromName (Name : option string) (Address : option Z)
    (e : Engine) : bool * option Z * Engine :=
  match Name with
  | None => (false, Address, e)
  | Some Name_text =>
      match Name_text with
      | EmptyString => (false, Address, e)
      | String _ _ =>
          match Address with
          | None => (false, Address, e)
          | Some _ =>
              if CRT._strnicmp Name_text "Ordinal" 7 =? 0
              then (false, Address, e)
              else
                let (symbol_Address, e') := SafeSymFromName Name_text e in
                match symbol_Address with
                | None => (false, Address, e')
                | Some found => (true, Some (duint_cast arch found), e')
                end
          end
      end
  end.

(** *** SymGetSymbolicName *)

(** [DbgGetLabelAt(Address, SEG_DEFAULT, label)]: the label, if there is
    one. *)
Variable DbgGetLabelAt : Z -> option string.

(** The [%p] conversion of [StringUtils::sprintf]: the text of an address
    at pointer width. *)
Variable format_p : Z -> string.

Definition SymGetSymbolicName (Address : Z) : string :=
  let hasModule := ModNameFromAddr modules Address false in
  match DbgGetLabelAt Address with
  | None =>
      match hasModule with
      | Some modname => (modname ++ "." ++ format_p Address)%string
      | None => ""
      end
  | Some label =>
      match hasModule with
      | Some modname => ("<" ++ modname ++ "." ++ label ++ ">")%string
      | None => ("<" ++ label ++ ">")%string
      end
  end.

(** *** SymGetSourceLine

    The three output pointers are null or point to a cell; the result is
    the returned flag and the three cells afterwards. *)
Definition SymGetSourceLine (Cip : Z) (FileName : option string)
    (Line : option Z) (disp : option Z)
    : Exec (bool * (option string * option Z * option Z)) :=
  match ModInfoFromAddr modules Cip with
  | None => Done (false, (FileName, Line, disp))
  | Some modInfo =>
      match symbols modInfo with
      | None => Done (false, (FileName, Line, disp))
      | Some sym =>
          if is_EmptySymbolSource sym then Done (false, (FileName, Line, disp))
          else
            match findSourceLineInfo sym (duint_sub arch Cip (base modInfo)) with
            | None => Done (false, (FileName, Line, disp))
            | Some lineInfo =>
                let disp' :=
                  match disp with Some _ => Some 0 | None => None end in
                let Line' :=
                  match Line with
                  | Some _ => Some (lineNumber lineInfo)
                  | None => None
                  end in
                FileName' <-
                  match FileName with
                  | Some _ =>
                      copied <- CRT.strcpy_s MAX_STRING_SIZE
                                  (CRT.c_str (sourceFile lineInfo)) ;;
                      Done (Some copied)
                  | None => Done None
                  end ;;
                Done (true, (FileName', Line', disp'))
            end
      end
  end.

End Engine.

(** ** The enumeration as a sequence

    The specification speaks of the symbols [SymEnum] emits and of their
    order.  These definitions write that sequence down directly, following
    the specification; the theorems below compare [SymEnum] with it. *)

(** Visiting a list of symbols in order, whatever the visitor answers. *)
Definition visit_all {U : Type} (visitor : CBSYMBOLENUM U)
    (l : list SYMBOLINFO) (user : U) : U :=
  fold_left (fun u s => snd (visitor s u)) l user.

(** A visitor that only writes down what it is shown. *)
Definition recorder : CBSYMBOLENUM (list SYMBOLINFO) :=
  fun s seen => (true, seen ++ [s]).

(** The same, but answering stop each time. *)
Definition stopping_recorder : CBSYMBOLENUM (list SYMBOLINFO) :=
  fun s seen => (false, seen ++ [s]).

(** The text of a name as it stands in one of the scratch buffers. *)
Definition buffered (s : string) : string :=
  CRT.strncpy_s_TRUNCATE MAX_SYM_NAME (CRT.c_str s).

Definition is_ordinal_placeholder (decorated : string) : bool :=
  match CRT.strstr decorated "Ordinal" with
  | Some _ => true
  | None => false
  end.

Definition is_import_thunk_name (decorated : string) : bool :=
  CRT.strncmp decorated "__imp_" 6 =? 0.

(** The ordinal rule: a placeholder name at the base itself. *)
Definition suppressed (arch : Arch) (Base : Z) (info : SymbolInfo) : bool :=
  is_ordinal_placeholder (buffered (decoratedName info))
  && (duint_add arch Base (info_addr info) =? Base).

Definition indexed_symbol (arch : Arch) (Base : Z) (info : SymbolInfo)
    : SYMBOLINFO :=
  {| addr := duint_add arch Base (info_addr info);
     decoratedSymbol := Some (buffered (decoratedName info));
     undecoratedSymbol :=
       if String.eqb (decoratedName info) (undecoratedName info)
       then None else Some (buffered (undecoratedName info));
     isImported := is_import_thunk_name (buffered (decoratedName info)) |}.

Definition indexed_pass (arch : Arch) (Base : Z) (entries : list SymbolInfo)
    : list SYMBOLINFO :=
  flat_map (fun info => if suppressed arch Base info then []
                        else [indexed_symbol arch Base info]) entries.

Definition indexed_sequence (arch : Arch) (modules : list MODINFO) (Base : Z)
    : list SYMBOLINFO :=
  match ModInfoFromAddr modules Base with
  | Some m =>
      match symbols m with
      | Some sym => if isOpen sym then indexed_pass arch Base (indexed sym) else []
      | None => []
      end
  | None => []
  end.

Definition entry_sequence (modules : list MODINFO) (Base : Z)
    : list SYMBOLINFO :=
  match ModInfoFromAddr modules Base with
  | Some m => if entry m =? 0 then [] else [entry_point_symbol (entry m)]
  | None => []
  end.

Definition import_symbol (UnDecorateSymbolName : string -> option string)
    (imp : IMPORT) : SYMBOLINFO :=
  let decorated := CRT.strncpy_s_TRUNCATE MAX_SYM_NAME (import_name imp) in
  {| addr := import_addr imp;
     decoratedSymbol := Some decorated;
     undecoratedSymbol :=
       match UnDecorateSymbolName (import_name imp) with
       | None => None
       | Some text => if CRT.strcmp decorated text =? 0 then None else Some text
       end;
     isImported := true |}.

Definition import_sequence (imports_of : Z -> list IMPORT)
    (UnDecorateSymbolName : string -> option string) (Base : Z)
    : list SYMBOLINFO :=
  map (import_symbol UnDecorateSymbolName) (imports_of Base).

(** The symbols pointer of the module that contains [Base], if there is one,
    is not null. *)
Definition symbols_present (modules : list MODINFO) (Base : Z) : Prop :=
  forall m, ModInfoFromAddr modules Base = Some m -> symbols m <> None.

(** Every name with its extension fits the name field of a snapshot
    entry. *)
Definition names_fit (modules : list MODINFO) : Prop :=
  Forall (fun m => (String.length (name m) + String.length (extension m)
                    < MAX_MODULE_SIZE)%nat) modules.

Definition snapshot_entry (m : MODINFO) : SYMBOLMODULEINFO :=
  {| module_base := base m;
     module_name := (name m ++ extension m)%string |}.

(** What the loops of [SymDownloadAllSymbols] leave alone: going from [e]
    to [e'] the option flags are the same, and the engine received further
    calls, none of which sets the option flags. *)
Definition options_untouched (e e' : Engine) : Prop :=
  SymOptions e' = SymOptions e
  /\ exists added,
       calls e' = calls e ++ added /\ filter is_SymSetOptions added = [].

(** The option flags during the synchronization. *)
Definition relaxed_options (symOptions : Z) : Z :=
  Z.land symOptions (DWORD_not SYMOPT_IGNORE_CVREC).

(** ** Fixtures *)

Module Fixture.

Definition main_info : SymbolInfo :=
  {| info_addr := 4096;
     decoratedName := "?main@@YAHXZ";
     undecoratedName := "int main(void)" |}.

Definition ordinal_at_base : SymbolInfo :=
  {| info_addr := 0; decoratedName := "Ordinal1"; undecoratedName := "Ordinal1" |}.

Definition ordinal_elsewhere : SymbolInfo :=
  {| info_addr := 32; decoratedName := "Ordinal1"; undecoratedName := "Ordinal1" |}.

Definition thunk_info : SymbolInfo :=
  {| info_addr := 48; decoratedName := "__imp_Sleep"; undecoratedName := "__imp_Sleep" |}.

Definition nameless_info : SymbolInfo :=
  {| info_addr := 64; decoratedName := ""; undecoratedName := "f" |}.

Definition undemangled_info : SymbolInfo :=
  {| info_addr := 80; decoratedName := "g"; undecoratedName := "" |}.

Definition line_of (rva : Z) : option LineInfo :=
  if rva =? 4096 then Some {| lineNumber := 12; sourceFile := "main.c" |}
  else None.

Definition source (entries : list SymbolInfo) : SymbolSourceBase :=
  {| is_EmptySymbolSource := false;
     isOpen := true;
     indexed := entries;
     findSourceLineInfo := line_of |}.

Definition closed_source : SymbolSourceBase :=
  {| is_EmptySymbolSource := false;
     isOpen := false;
     indexed := [];
     findSourceLineInfo := line_of |}.

Definition app (entry_addr : Z) (sym : option SymbolSourceBase) : MODINFO :=
  {| base := 4194304; size := 65536; entry := entry_addr;
     name := "app"; extension := ".exe"; symbols := sym |}.

Definition ordinal_table : list SymbolInfo :=
  [main_info; ordinal_at_base; ordinal_elsewhere].

Definition ordinal_modules : list MODINFO :=
  [app 0 (Some (source ordinal_table))].

Definition lib : MODINFO :=
  {| base := 268435456; size := 65536; entry := 0;
     name := "lib"; extension := ".dll"; symbols := Some closed_source |}.

Definition app_imports (Base : Z) : list IMPORT :=
  if Base =? 4194304
  then [{| import_base := 4194304; import_addr := 4202496;
           import_name := "?f@@YAHXZ"; import_moduleName := "lib.dll" |};
        {| import_base := 4194304; import_addr := 4202504;
           import_name := "Sleep"; import_moduleName := "kernel32.dll" |}]
  else [].

Definition no_imports (Base : Z) : list IMPORT := [].

Definition undecorate (text : string) : option string :=
  if String.eqb text "?f@@YAHXZ" then Some "int f(void)" else None.

Definition labels (Address : Z) : option string :=
  if Address =? 4198400 then Some "start" else
  if Address =? 7 then Some "seven" else None.

Definition hex (Address : Z) : string :=
  if Address =? 4198404 then "0000000000401004" else "?".

(** An engine on which every call succeeds and every module has a debug
    database. *)
Definition willing : EngineDouble :=
  {| succeeds := fun _ _ => true;
     module_file_name := fun _ _ => "C:\app.exe";
     symbol_type := fun _ _ => SymPdb;
     symbol_address := fun _ _ => 4198400 |}.

(** The same, except that the search path can be set to nothing but the
    empty path. *)
Definition stubborn : EngineDouble :=
  {| succeeds := fun _ c =>
       match c with
       | CSymSetSearchPathW path => String.eqb path ""
       | _ => true
       end;
     module_file_name := fun _ _ => "C:\app.exe";
     symbol_type := fun _ _ => SymPdb;
     symbol_address := fun _ _ => 4198400 |}.

(** An engine on which no image path can be resolved. *)
Definition pathless : EngineDouble :=
  {| succeeds := fun _ c =>
       match c with
       | CGetModuleFileNameExW _ => false
       | _ => true
       end;
     module_file_name := fun _ _ => "";
     symbol_type := fun _ _ => SymExport;
     symbol_address := fun _ _ => 0 |}.

Definition engine0 : Engine :=
  {| SymOptions := 146; SearchPath := "C:\symbols"; calls := [] |}.

(** The engine after the synchronization of [app] and [lib] on the
    [pathless] engine, with the store ["store"]. *)
Definition engine_after_pathless : Engine :=
  {| SymOptions := 146;
     SearchPath := "C:\symbols";
     calls := [CSymGetSearchPathW; CSymGetOptions; CSymSetOptions 18;
               CSymSetSearchPathW "";
               CGetModuleFileNameExW 4194304;
               CSymSetSearchPathW "SRV*C:\cache*store";
               CGetModuleFileNameExW 4194304;
               CSymSetSearchPathW "";
               CGetModuleFileNameExW 268435456;
               CSymSetSearchPathW "SRV*C:\cache*store";
               CGetModuleFileNameExW 268435456;
               CSymSetOptions 146;
               CSymSetSearchPathW "C:\symbols"] |}.


(** A string of [n] letters. *)
Fixpoint filler (n : nat) : string :=
  match n with
  | O => ""
  | S n' => String "a" (filler n')
  end.

(** A module whose name and extension each fit [MAX_MODULE_SIZE]
    characters, but not one after the other. *)
Definition long_named : MODINFO :=
  {| base := 536870912; size := 65536; entry := 0;
     name := filler 250; extension := ".extension"; symbols := None |}.

(** An engine whose search path is longer than [MAX_PATH]. *)
Definition long_path_engine : Engine :=
  {| SymOptions := 146; SearchPath := filler 300; calls := [] |}.

(** An engine that cannot read its search path. *)
Definition unreadable : EngineDouble :=
  {| succeeds := fun _ c =>
       match c with
       | CSymGetSearchPathW => false
       | _ => true
       end;
     module_file_name := fun _ _ => "C:\app.exe";
     symbol_type := fun _ _ => SymPdb;
     symbol_address := fun _ _ => 0 |}.

End Fixture.

(** ** Further vocabulary

    Notions used to state what the functions do beyond the order of the
    enumeration and the restoration of the engine. *)

(** [needle] occurs in [haystack]. *)
Definition occurs_in (needle haystack : string) : Prop :=
  exists before after, haystack = (before ++ needle ++ after)%string.

Definition no_NUL (s : string) : Prop :=
  forall before c after,
    s = (before ++ String c after)%string -> CRT.code c <> 0.

(** The length of the symbol table behind the module found for [Base]. *)
Definition table_length (modules : list MODINFO) (Base : Z) : nat :=
  match ModInfoFromAddr modules Base with
  | Some m =>
      match symbols m with
      | Some sym => List.length (indexed sym)
      | None => 0%nat
      end
  | None => 0%nat
  end.

(** The calls of one round of the synchronization, for one module under one
    candidate path, when nothing fails. *)
Definition round_pattern (module : SYMBOLMODULEINFO) (path image : string)
    : list Call :=
  [CSymSetSearchPathW path;
   CGetModuleFileNameExW (module_base module);
   CSymUnloadModule64 (module_base module);
   CSymLoadModuleExW image (module_base module);
   CSymGetModuleInfoW64 (module_base module)].

(** A round as it may have gone: the calls of the pattern up to the first
    one that failed, or all five. *)
Definition is_round (module : SYMBOLMODULEINFO) (path : string)
    (round : list Call) : Prop :=
  exists image n,
    (1 <= n <= 5)%nat /\ round = firstn n (round_pattern module path image).

(** The calls the synchronization may make for the modules of [modList]
    under the candidate paths [paths]. *)
Definition round_call (modList : list SYMBOLMODULEINFO) (paths : list string)
    (c : Call) : bool :=
  match c with
  | CSymSetSearchPathW path => existsb (String.eqb path) paths
  | CGetModuleFileNameExW b
  | CSymUnloadModule64 b
  | CSymLoadModuleExW _ b
  | CSymGetModuleInfoW64 b =>
      existsb (fun module => module_base module =? b) modList
  | _ => false
  end.

(** [kept] is what a buffer of [size] characters holds of [whole]: its
    beginning, all of it when it fits beside the terminator. *)
Definition held_by_buffer (size : nat) (whole kept : string) : Prop :=
  (exists rest, whole = (kept ++ rest)%string)
  /\ String.length kept = Nat.min (String.length whole) (size - 1).

(** The calls of [todo] made one after the other until one fails: each call
    is made in the history the calls before it left, and the first call
    that fails is the last one made. *)
Fixpoint cut_at_failure (double : EngineDouble) (history todo : list Call)
    : list Call :=
  match todo with
  | [] => []
  | c :: rest =>
      if succeeds double history c
      then c :: cut_at_failure double (history ++ [c]) rest
      else [c]
  end.

(** The calls of [todo] all succeed, each in the history the calls before
    it left. *)
Fixpoint all_succeed (double : EngineDouble) (history todo : list Call)
    : bool :=
  match todo with
  | [] => true
  | c :: rest =>
      succeeds double history c && all_succeed double (history ++ [c]) rest
  end.

(** The image path the engine gives for the module in a round that starts
    in [history]. *)
Definition round_image (double : EngineDouble) (module : SYMBOLMODULEINFO)
    (path : string) (history : list Call) : string :=
  module_file_name double (history ++ [CSymSetSearchPathW path])
    (module_base module).

(** The calls of the round for one module under one candidate path, started
    in [history]: the pattern, cut after the first call that fails. *)
Definition round_of (double : EngineDouble) (module : SYMBOLMODULEINFO)
    (path : string) (history : list Call) : list Call :=
  cut_at_failure double history
    (round_pattern module path (round_image double module path history)).

(** The round loads a debug database: its five calls succeed and the engine
    then reports [SymPdb]. *)
Definition round_loaded (double : EngineDouble) (module : SYMBOLMODULEINFO)
    (path : string) (history : list Call) : bool :=
  let pattern :=
    round_pattern module path (round_image double module path history) in
  all_succeed double history pattern
  && match symbol_type double (history ++ firstn 4 pattern) (module_base module)
     with
     | SymPdb => true
     | _ => false
     end.

(** The calls made for one module: a round per candidate path, in order,
    up to and including the first round that loads a debug database. *)
Fixpoint block_of (double : EngineDouble) (module : SYMBOLMODULEINFO)
    (history : list Call) (paths : list string) : list Call :=
  match paths with
  | [] => []
  | path :: rest =>
      let round := round_of double module path history in
      if round_loaded double module path history then round
      else round ++ block_of double module (history ++ round) rest
  end.

(** The blocks of the modules, each started in the history the blocks
    before it left. *)
Fixpoint blocks_of (double : EngineDouble) (paths : list string)
    (history : list Call) (modList : list SYMBOLMODULEINFO)
    : list (list Call) :=
  match modList with
  | [] => []
  | module :: rest =>
      let block := block_of double module history paths in
      block :: blocks_of double paths (history ++ block) rest
  end.

(** Going from [e] to [e'], the engine received the calls of some rounds for
    [module], one per candidate path of a first part of [paths], in order;
    at least one when there is a candidate at all. *)
Definition went_through (module : SYMBOLMODULEINFO) (paths : list string)
    (e e' : Engine) : Prop :=
  exists tried untried rounds,
    paths = tried ++ untried
    /\ Forall2 (is_round module) tried rounds
    /\ calls e' = calls e ++ List.concat rounds
    /\ (paths <> [] -> tried <> []).

(** The calls made for one module: rounds for a first part of the
    candidate paths, beginning with the first candidate. *)
Definition module_block (paths : list string) (module : SYMBOLMODULEINFO)
    (block : list Call) : Prop :=
  exists tried untried rounds,
    paths = tried ++ untried
    /\ Forall2 (is_round module) tried rounds
    /\ block = List.concat rounds
    /\ (forall first others, paths = first :: others ->
        exists later, block = CSymSetSearchPathW first :: later).

(** The engine after a round in which the five calls succeeded. *)
Definition after_full_round (double : EngineDouble) (module : SYMBOLMODULEINFO)
    (path : string) (e : Engine) : Engine :=
  {| SymOptions := SymOptions e;
     SearchPath := path;
     calls :=
       calls e
       ++ round_pattern module path
            (module_file_name double (calls e ++ [CSymSetSearchPathW path])
               (module_base module)) |}.

(** The five calls of a round succeed, starting from [e]. *)
Definition round_succeeds (double : EngineDouble) (module : SYMBOLMODULEINFO)
    (path : string) (e : Engine) : Prop :=
  let image :=
    module_file_name double (calls e ++ [CSymSetSearchPathW path])
      (module_base module) in
  forall n, (n < 5)%nat ->
    succeeds double
      (calls e ++ firstn n (round_pattern module path image))
      (nth n (round_pattern module path image) CSymGetOptions) = true.

(** The symbol type the engine reports at the end of such a round. *)
Definition round_symbol_type (double : EngineDouble)
    (module : SYMBOLMODULEINFO) (path : string) (e : Engine) : SYM_TYPE :=
  let image :=
    module_file_name double (calls e ++ [CSymSetSearchPathW path])
      (module_base module) in
  symbol_type double
    (calls e ++ firstn 4 (round_pattern module path image))
    (module_base module).

(** ** Facts about the runtime functions *)

Lemma take_nonempty : forall n s,
  s <> EmptyString -> CRT.take (S n) s <> EmptyString.
Proof.
  intros n [|c r] H; simpl; congruence.
Qed.

Lemma c_str_nonempty : forall c r,
  CRT.code c <> 0 -> CRT.c_str (String c r) <> EmptyString.
Proof.
  intros c r H. simpl.
  destruct (CRT.code c =? 0) eqn:E; [apply Z.eqb_eq in E; contradiction | discriminate].
Qed.

Lemma buffered_nonempty : forall s,
  CRT.c_str s <> EmptyString -> buffered s <> EmptyString.
Proof.
  intros s H. unfold buffered, CRT.strncpy_s_TRUNCATE, MAX_SYM_NAME.
  change (2000 - 1)%nat with (S 1998). now apply take_nonempty.
Qed.

Lemma truncated_nonempty : forall s,
  s <> EmptyString -> CRT.strncpy_s_TRUNCATE MAX_SYM_NAME s <> EmptyString.
Proof.
  intros s H. unfold CRT.strncpy_s_TRUNCATE, MAX_SYM_NAME.
  change (2000 - 1)%nat with (S 1998). now apply take_nonempty.
Qed.

(** ** Facts about the enumeration *)

Section EnumerationFacts.

Variable arch : Arch.
Variable modules : list MODINFO.
Variable imports_of : Z -> list IMPORT.
Variable UnDecorateSymbolName : string -> option string.
Variable U : Type.

Lemma visit_all_app : forall (visitor : CBSYMBOLENUM U) l1 l2 user,
  visit_all visitor (l1 ++ l2) user
  = visit_all visitor l2 (visit_all visitor l1 user).
Proof.
  intros. unfold visit_all. apply fold_left_app.
Qed.

(** What the callback given to the SymbolSource does with one entry. *)
Lemma SymEnum_lambda_step : forall Base (visitor : CBSYMBOLENUM U) info user,
  SymEnum_lambda arch U Base visitor info user
  = (true, if suppressed arch Base info then user
           else snd (visitor (indexed_symbol arch Base info) user)).
Proof.
  intros. unfold SymEnum_lambda, suppressed, is_ordinal_placeholder, buffered.
  destruct (CRT.strstr _ "Ordinal") as [tail|]; simpl.
  - destruct (duint_add arch Base (info_addr info) =? Base); [reflexivity|].
    unfold indexed_symbol, is_import_thunk_name, buffered.
    destruct (String.eqb_spec (decoratedName info) (undecoratedName info)) as [E|E].
    + rewrite <- E. reflexivity.
    + reflexivity.
  - unfold indexed_symbol, is_import_thunk_name, buffered.
    destruct (String.eqb_spec (decoratedName info) (undecoratedName info)) as [E|E].
    + rewrite <- E. reflexivity.
    + reflexivity.
Qed.

(** The indexed pass goes through the whole table. *)
Lemma enumSymbols_from_lambda : forall Base (visitor : CBSYMBOLENUM U) entries user,
  enumSymbols_from entries (SymEnum_lambda arch U Base visitor) user
  = (true, visit_all visitor (indexed_pass arch Base entries) user).
Proof.
  intros Base visitor entries.
  induction entries as [|info rest IH]; intros user.
  - reflexivity.
  - cbn [enumSymbols_from]. rewrite SymEnum_lambda_step. rewrite IH.
    unfold indexed_pass. cbn [flat_map]. rewrite visit_all_app.
    destruct (suppressed arch Base info); reflexivity.
Qed.

Lemma SymEnumImports_visits : forall Base (visitor : CBSYMBOLENUM U) user,
  SymEnumImports imports_of UnDecorateSymbolName U Base visitor user
  = visit_all visitor (import_sequence imports_of UnDecorateSymbolName Base) user.
Proof.
  intros. unfold SymEnumImports, import_sequence, visit_all.
  generalize user. induction (imports_of Base) as [|imp rest IH]; intros u.
  - reflexivity.
  - simpl. rewrite IH. reflexivity.
Qed.

(** [SymEnum] in full: a null symbols pointer ends the call, otherwise the
    three passes follow each other. *)
Lemma SymEnum_cases : forall Base (visitor : CBSYMBOLENUM U) user,
  SymEnum arch modules imports_of UnDecorateSymbolName U Base visitor user
  = match ModInfoFromAddr modules Base with
    | Some m =>
        match symbols m with
        | None => Crash NullDereference
        | Some _ =>
            Done (visit_all visitor
                    (indexed_sequence arch modules Base
                     ++ entry_sequence modules Base
                     ++ import_sequence imports_of UnDecorateSymbolName Base)
                    user)
        end
    | None =>
        Done (visit_all visitor
                (indexed_sequence arch modules Base
                 ++ entry_sequence modules Base
                 ++ import_sequence imports_of UnDecorateSymbolName Base)
                user)
    end.
Proof.
  intros. unfold SymEnum, indexed_sequence, entry_sequence, ModEntryFromAddr.
  destruct (ModInfoFromAddr modules Base) as [m|].
  - destruct (symbols m) as [sym|]; [|reflexivity].
    destruct (isOpen sym).
    + unfold enumSymbols. rewrite enumSymbols_from_lambda.
      cbn [bind snd entry_point_symbol addr]. rewrite SymEnumImports_visits.
      rewrite !visit_all_app. destruct (entry m =? 0); reflexivity.
    + cbn [bind snd entry_point_symbol addr]. rewrite SymEnumImports_visits.
      rewrite !visit_all_app. destruct (entry m =? 0); reflexivity.
  - cbn [bind snd entry_point_symbol addr]. rewrite SymEnumImports_visits.
    reflexivity.
Qed.

Lemma SymEnum_visits : forall Base (visitor : CBSYMBOLENUM U) user,
  symbols_present modules Base ->
  SymEnum arch modules imports_of UnDecorateSymbolName U Base visitor user
  = Done (visit_all visitor
            (indexed_sequence arch modules Base
             ++ entry_sequence modules Base
             ++ import_sequence imports_of UnDecorateSymbolName Base)
            user).
Proof.
  intros Base visitor user H. rewrite SymEnum_cases.
  unfold symbols_present in H.
  destruct (ModInfoFromAddr modules Base) as [m|]; [|reflexivity].
  specialize (H m eq_refl). destruct (symbols m); [reflexivity|congruence].
Qed.

End EnumerationFacts.

Lemma visit_all_recorder : forall l seen,
  visit_all recorder l seen = seen ++ l.
Proof.
  induction l as [|s l IH]; intros seen.
  - simpl. now rewrite app_nil_r.
  - unfold visit_all in *. simpl. rewrite IH. now rewrite <- app_assoc.
Qed.

Lemma SymEnum_recorded : forall arch modules imports_of undecorate Base seen,
  SymEnum arch modules imports_of undecorate _ Base recorder [] = Done seen ->
  seen = indexed_sequence arch modules Base
         ++ entry_sequence modules Base
         ++ import_sequence imports_of undecorate Base.
Proof.
  intros arch modules imports_of undecorate Base seen H.
  rewrite SymEnum_cases in H.
  destruct (ModInfoFromAddr modules Base) as [m|].
  - destruct (symbols m); [|discriminate].
    inversion H. now rewrite visit_all_recorder.
  - inversion H. now rewrite visit_all_recorder.
Qed.

(** ** The order of the enumeration *)

(** C1.  When the symbols pointer of the module found for [Base] is not
    null, [SymEnum] returns after calling the visitor once per symbol of the
    sequence made of the indexed symbols, then the entry point pseudo-symbol,
    then the imports.  The indexed part is empty unless a module is found and
    its SymbolSource is open, in which case it is the indexed pass over the
    source's table.  The entry point part is empty when the entry point
    address recorded for [Base] is zero, and otherwise is the one symbol
    named [OptionalHeader.AddressOfEntryPoint] at that address, with no
    undecorated name and not flagged as imported; the recorded address is
    not zero exactly when a module is found whose entry point is not zero.
    The import part has one symbol per import the walker yields. *)
Theorem SymEnum_order :
  forall arch modules imports_of undecorate (U : Type) Base
         (visitor : CBSYMBOLENUM U) (user : U),
    symbols_present modules Base ->
    SymEnum arch modules imports_of undecorate U Base visitor user
    = Done (visit_all visitor
              (indexed_sequence arch modules Base
               ++ entry_sequence modules Base
               ++ import_sequence imports_of undecorate Base)
              user)
    /\ SymEnum arch modules imports_of undecorate U Base visitor user
       = Done (visit_all visitor
                 (indexed_sequence arch modules Base
                  ++ (if ModEntryFromAddr modules Base =? 0 then []
                      else [{| addr := ModEntryFromAddr modules Base;
                               decoratedSymbol :=
                                 Some "OptionalHeader.AddressOfEntryPoint";
                               undecoratedSymbol := None;
                               isImported := false |}])
                  ++ map (import_symbol undecorate) (imports_of Base))
                 user)
    /\ (indexed_sequence arch modules Base <> [] ->
        exists m sym, ModInfoFromAddr modules Base = Some m
                      /\ symbols m = Some sym /\ isOpen sym = true)
    /\ (forall m sym, ModInfoFromAddr modules Base = Some m ->
                      symbols m = Some sym -> isOpen sym = true ->
                      indexed_sequence arch modules Base
                      = indexed_pass arch Base (indexed sym))
    /\ (entry_sequence modules Base = []
        \/ entry_sequence modules Base
           = [{| addr := ModEntryFromAddr modules Base;
                 decoratedSymbol := Some "OptionalHeader.AddressOfEntryPoint";
                 undecoratedSymbol := None;
                 isImported := false |}])
    /\ (entry_sequence modules Base <> [] <->
        exists m, ModInfoFromAddr modules Base = Some m /\ entry m <> 0)
    /\ (ModEntryFromAddr modules Base <> 0 <->
        exists m, ModInfoFromAddr modules Base = Some m /\ entry m <> 0)
    /\ import_sequence imports_of undecorate Base
       = map (import_symbol undecorate) (imports_of Base).
Proof.
  intros arch modules imports_of undecorate U Base visitor user Hp.
  split; [now apply SymEnum_visits|].
  split.
  { rewrite (SymEnum_visits arch modules imports_of undecorate U Base
               visitor user Hp).
    unfold entry_sequence, ModEntryFromAddr, import_sequence.
    destruct (ModInfoFromAddr modules Base) as [m|]; [|reflexivity].
    destruct (entry m =? 0); reflexivity. }
  unfold indexed_sequence, entry_sequence, ModEntryFromAddr.
  destruct (ModInfoFromAddr modules Base) as [m|].
  - split; [|split; [|split; [|split; [|split]]]].
    + intros Hne. destruct (symbols m) as [sym|] eqn:Hs; [|congruence].
      destruct (isOpen sym) eqn:Ho; [|congruence].
      exists m, sym. auto.
    + intros m' sym Hm Hs Ho. inversion Hm; subst m'. now rewrite Hs, Ho.
    + destruct (entry m =? 0); [left|right]; reflexivity.
    + split.
      * intros Hne. exists m. split; [reflexivity|].
        intros Hz. rewrite Hz in Hne. now apply Hne.
      * intros [m' [Hm Hz]]. inversion Hm; subst m'.
        destruct (Z.eqb_spec (entry m) 0); [contradiction|discriminate].
    + split.
      * intros Hz. exists m. now split.
      * intros [m' [Hm Hz]]. now inversion Hm; subst m'.
    + reflexivity.
  - split; [|split; [|split; [|split; [|split]]]].
    + congruence.
    + discriminate.
    + now left.
    + split; [congruence | intros [m' [Hm _]]; discriminate].
    + split; [congruence | intros [m' [Hm _]]; discriminate].
    + reflexivity.
Qed.

Lemma SymEnum_order_witness :
  symbols_present
    [Fixture.app 4198400 (Some (Fixture.source [Fixture.main_info])); Fixture.lib]
    4194304
  /\ SymEnum x64
       [Fixture.app 4198400 (Some (Fixture.source [Fixture.main_info])); Fixture.lib]
       Fixture.app_imports Fixture.undecorate (list SYMBOLINFO) 4194304 recorder []
     = Done [{| addr := 4198400;
                decoratedSymbol := Some "?main@@YAHXZ";
                undecoratedSymbol := Some "int main(void)";
                isImported := false |};
             {| addr := 4198400;
                decoratedSymbol := Some "OptionalHeader.AddressOfEntryPoint";
                undecoratedSymbol := None;
                isImported := false |};
             {| addr := 4202496;
                decoratedSymbol := Some "?f@@YAHXZ";
                undecoratedSymbol := Some "int f(void)";
                isImported := true |};
             {| addr := 4202504;
                decoratedSymbol := Some "Sleep";
                undecoratedSymbol := None;
                isImported := true |}].
Proof.
  assert (H : symbols_present
                [Fixture.app 4198400 (Some (Fixture.source [Fixture.main_info]));
                 Fixture.lib] 4194304).
  { intros m Hm. vm_compute in Hm. inversion Hm. discriminate. }
  split; [exact H|].
  rewrite (proj1 (proj2 (SymEnum_order x64 _ Fixture.app_imports
                           Fixture.undecorate (list SYMBOLINFO) 4194304
                           recorder [] H))).
  vm_compute. reflexivity.
Defined.

(** ** The visitor's answer *)

(** C3, as the code has it.  The callback that [SymEnum] gives to the
    SymbolSource answers continue whatever the visitor answered, so the
    indexed pass visits every entry the ordinal rule keeps; and [SymEnum]
    as a whole does with a visitor what it does with the same visitor made
    to answer continue each time. *)
Theorem SymEnum_visitor_answer_unused :
  forall arch modules imports_of undecorate (U : Type) Base
         (visitor : CBSYMBOLENUM U) (user : U),
    (forall sym,
        enumSymbols sym (SymEnum_lambda arch U Base visitor) user
        = (true, visit_all visitor (indexed_pass arch Base (indexed sym)) user))
    /\ SymEnum arch modules imports_of undecorate U Base visitor user
       = SymEnum arch modules imports_of undecorate U Base
           (fun s u => (true, snd (visitor s u))) user.
Proof.
  intros. split.
  - intros sym. unfold enumSymbols. apply enumSymbols_from_lambda.
  - rewrite !SymEnum_cases. reflexivity.
Qed.

(** C3 fails as stated: the visitor answers stop at the first indexed
    symbol and is shown the second one all the same.  The module has no
    entry point and no imports, so both symbols come from the indexed
    pass. *)
Lemma SymEnum_stop_not_honored :
  fst (stopping_recorder (indexed_symbol x64 4194304 Fixture.main_info) []) = false
  /\ SymEnum x64
       [Fixture.app 0 (Some (Fixture.source [Fixture.main_info; Fixture.thunk_info]))]
       Fixture.no_imports Fixture.undecorate (list SYMBOLINFO) 4194304
       stopping_recorder []
     = Done [indexed_symbol x64 4194304 Fixture.main_info;
             indexed_symbol x64 4194304 Fixture.thunk_info].
Proof.
  split; [reflexivity | vm_compute; reflexivity].
Qed.

(** ** The names of the emitted symbols *)

(** C5, as the code has it.  Every symbol [SymEnum] shows to the visitor has
    a decorated name that is not null, and is of one of three kinds.  An
    indexed symbol comes from an entry of the table of the open
    SymbolSource of the module found for [Base]: its address is [Base]
    plus the entry's offset, its decorated name is the entry's decorated
    name as it fits the buffer, not empty when that name is not empty as a
    C string; its undecorated name is null when the entry's two names are
    equal and is the entry's undecorated name, as it fits the buffer,
    otherwise.  The pseudo-symbol is named
    [OptionalHeader.AddressOfEntryPoint] and its undecorated name is null.
    An import comes from a tuple the walker yields for [Base]: its address
    is the tuple's, its decorated name is the tuple's name as it fits the
    buffer, not empty when that name is not empty; its undecorated name is
    null when demangling fails or gives the decorated text back, and the
    demangled text otherwise. *)
Theorem SymEnum_names :
  forall arch modules imports_of undecorate Base seen s,
    SymEnum arch modules imports_of undecorate (list SYMBOLINFO) Base recorder []
    = Done seen ->
    In s seen ->
    exists decorated,
      decoratedSymbol s = Some decorated
      /\ ((exists m sym info,
             ModInfoFromAddr modules Base = Some m
             /\ symbols m = Some sym
             /\ isOpen sym = true
             /\ In info (indexed sym)
             /\ addr s = duint_add arch Base (info_addr info)
             /\ decorated
                = CRT.strncpy_s_TRUNCATE MAX_SYM_NAME
                    (CRT.c_str (decoratedName info))
             /\ (CRT.c_str (decoratedName info) <> "" -> decorated <> "")
             /\ (decoratedName info = undecoratedName info ->
                 undecoratedSymbol s = None)
             /\ (decoratedName info <> undecoratedName info ->
                 undecoratedSymbol s
                 = Some (CRT.strncpy_s_TRUNCATE MAX_SYM_NAME
                           (CRT.c_str (undecoratedName info)))))
          \/ (decorated = "OptionalHeader.AddressOfEntryPoint"
              /\ undecoratedSymbol s = None)
          \/ (exists imp,
                In imp (imports_of Base)
                /\ addr s = import_addr imp
                /\ decorated = CRT.strncpy_s_TRUNCATE MAX_SYM_NAME (import_name imp)
                /\ (import_name imp <> "" -> decorated <> "")
                /\ (undecorate (import_name imp) = None ->
                    undecoratedSymbol s = None)
                /\ (forall text,
                       undecorate (import_name imp) = Some text ->
                       undecoratedSymbol s
                       = if CRT.strcmp decorated text =? 0 then None
                         else Some text))).
Proof.
  intros arch modules imports_of undecorate Base seen s Hrun Hin.
  apply SymEnum_recorded in Hrun. subst seen.
  apply in_app_or in Hin. destruct Hin as [Hin|Hin].
  - (* indexed *)
    unfold indexed_sequence in Hin.
    destruct (ModInfoFromAddr modules Base) as [m|]; [|contradiction].
    destruct (symbols m) as [sym|] eqn:Hs; [|contradiction].
    destruct (isOpen sym) eqn:Ho; [|contradiction].
    unfold indexed_pass in Hin. apply in_flat_map in Hin.
    destruct Hin as [info [Htable Hshown]].
    destruct (suppressed arch Base info); [contradiction|].
    destruct Hshown as [Hshown|[]]. subst s.
    exists (buffered (decoratedName info)). split; [reflexivity|].
    left. exists m, sym, info. cbn [indexed_symbol undecoratedSymbol addr].
    split; [reflexivity|]. split; [exact Hs|]. split; [exact Ho|].
    split; [exact Htable|]. split; [reflexivity|]. split; [reflexivity|].
    split; [apply buffered_nonempty|]. split.
    + intros E. apply String.eqb_eq in E. now rewrite E.
    + intros E. apply String.eqb_neq in E. now rewrite E.
  - apply in_app_or in Hin. destruct Hin as [Hin|Hin].
    + (* pseudo-symbol *)
      unfold entry_sequence in Hin.
      destruct (ModInfoFromAddr modules Base) as [m|]; [|contradiction].
      destruct (entry m =? 0); [contradiction|].
      destruct Hin as [Hs|[]]. subst s.
      exists "OptionalHeader.AddressOfEntryPoint". split; [reflexivity|].
      right. left. split; reflexivity.
    + (* import *)
      unfold import_sequence in Hin. apply in_map_iff in Hin.
      destruct Hin as [imp [Hs Himp]]. subst s.
      exists (CRT.strncpy_s_TRUNCATE MAX_SYM_NAME (import_name imp)).
      split; [reflexivity|].
      right. right. exists imp. cbn [import_symbol undecoratedSymbol addr].
      split; [exact Himp|]. split; [reflexivity|]. split; [reflexivity|].
      split; [apply truncated_nonempty|]. split.
      * intros E. now rewrite E.
      * intros text E. now rewrite E.
Qed.

Lemma SymEnum_names_witness :
  SymEnum x64 [Fixture.app 0 (Some (Fixture.source [Fixture.main_info]))]
    Fixture.no_imports Fixture.undecorate (list SYMBOLINFO) 4194304 recorder []
  = Done [{| addr := 4198400;
             decoratedSymbol := Some "?main@@YAHXZ";
             undecoratedSymbol := Some "int main(void)";
             isImported := false |}]
  /\ In {| addr := 4198400;
           decoratedSymbol := Some "?main@@YAHXZ";
           undecoratedSymbol := Some "int main(void)";
           isImported := false |}
        [{| addr := 4198400;
            decoratedSymbol := Some "?main@@YAHXZ";
            undecoratedSymbol := Some "int main(void)";
            isImported := false |}]
  /\ exists decorated,
       Some "?main@@YAHXZ" = Some decorated.
Proof.
  assert (Hrun : SymEnum x64 [Fixture.app 0 (Some (Fixture.source [Fixture.main_info]))]
                   Fixture.no_imports Fixture.undecorate (list SYMBOLINFO)
                   4194304 recorder []
                 = Done [{| addr := 4198400;
                            decoratedSymbol := Some "?main@@YAHXZ";
                            undecoratedSymbol := Some "int main(void)";
                            isImported := false |}]).
  { vm_compute. reflexivity. }
  assert (Hin : In {| addr := 4198400;
                      decoratedSymbol := Some "?main@@YAHXZ";
                      undecoratedSymbol := Some "int main(void)";
                      isImported := false |}
                   [{| addr := 4198400;
                       decoratedSymbol := Some "?main@@YAHXZ";
                       undecoratedSymbol := Some "int main(void)";
                       isImported := false |}]).
  { simpl. left. reflexivity. }
  split; [exact Hrun|]. split; [exact Hin|].
  destruct (SymEnum_names x64 _ _ _ _ _ _ Hrun Hin) as [decorated [Hd _]].
  exists decorated. exact Hd.
Defined.

(** C5 fails as stated: a table entry with an empty decorated name is
    emitted with an empty decorated name, and an entry with an empty
    undecorated name is emitted with an undecorated name that is not null
    and is empty. *)
Lemma SymEnum_empty_names :
  SymEnum x64
    [Fixture.app 0 (Some (Fixture.source [Fixture.nameless_info;
                                          Fixture.undemangled_info]))]
    Fixture.no_imports Fixture.undecorate (list SYMBOLINFO) 4194304 recorder []
  = Done [{| addr := 4194368; decoratedSymbol := Some "";
             undecoratedSymbol := Some "f"; isImported := false |};
          {| addr := 4194384; decoratedSymbol := Some "g";
             undecoratedSymbol := Some ""; isImported := false |}].
Proof.
  vm_compute. reflexivity.
Qed.

(** ** The ordinal rule *)

(** C8.  Take a table entry whose decorated name, as it stands in the
    buffer, contains [Ordinal].  In the enumeration of the module at [Base]
    the entry is left out when [Base] plus its offset is [Base] again, and
    is emitted in its place otherwise; the entries before and after it, the
    pseudo-symbol and the imports are not affected. *)
Theorem SymEnum_ordinal_rule :
  forall arch modules imports_of undecorate (U : Type) Base
         (visitor : CBSYMBOLENUM U) (user : U) m sym before info after,
    ModInfoFromAddr modules Base = Some m ->
    symbols m = Some sym ->
    isOpen sym = true ->
    indexed sym = before ++ info :: after ->
    is_ordinal_placeholder (buffered (decoratedName info)) = true ->
    SymEnum arch modules imports_of undecorate U Base visitor user
    = Done (visit_all visitor
              (indexed_pass arch Base before
               ++ (if duint_add arch Base (info_addr info) =? Base then []
                   else [indexed_symbol arch Base info])
               ++ indexed_pass arch Base after
               ++ entry_sequence modules Base
               ++ import_sequence imports_of undecorate Base)
              user).
Proof.
  intros arch modules imports_of undecorate U Base visitor user m sym
         before info after Hm Hs Ho Hsplit Hord.
  rewrite SymEnum_cases. unfold indexed_sequence. rewrite Hm, Hs, Ho, Hsplit.
  unfold indexed_pass. rewrite flat_map_app. cbn [flat_map].
  unfold suppressed. rewrite Hord. cbn [andb].
  rewrite <- !app_assoc. reflexivity.
Qed.

Lemma SymEnum_ordinal_rule_witness :
  ModInfoFromAddr Fixture.ordinal_modules 4194304
  = Some (Fixture.app 0 (Some (Fixture.source Fixture.ordinal_table)))
  /\ is_ordinal_placeholder (buffered (decoratedName Fixture.ordinal_at_base))
     = true
  /\ SymEnum x64 Fixture.ordinal_modules Fixture.no_imports Fixture.undecorate
       (list SYMBOLINFO) 4194304 recorder []
     = Done [indexed_symbol x64 4194304 Fixture.main_info;
             indexed_symbol x64 4194304 Fixture.ordinal_elsewhere].
Proof.
  split; [reflexivity|]. split; [reflexivity|].
  rewrite (SymEnum_ordinal_rule x64 Fixture.ordinal_modules
             Fixture.no_imports Fixture.undecorate
             (list SYMBOLINFO) 4194304 recorder []
             (Fixture.app 0 (Some (Fixture.source Fixture.ordinal_table)))
             (Fixture.source Fixture.ordinal_table)
             [Fixture.main_info] Fixture.ordinal_at_base
             [Fixture.ordinal_elsewhere]
             eq_refl eq_refl eq_refl eq_refl eq_refl).
  vm_compute. reflexivity.
Defined.

(** ** The module list *)

Lemma SymGetModuleList_lambda_fits : forall m List,
  (String.length (name m) + String.length (extension m) < MAX_MODULE_SIZE)%nat ->
  SymGetModuleList_lambda m List = Done (List ++ [snapshot_entry m]).
Proof.
  intros m List H. unfold SymGetModuleList_lambda, CRT.strcpy_s, CRT.strcat_s.
  assert (H1 : (String.length (name m) <? MAX_MODULE_SIZE)%nat = true)
    by (apply Nat.ltb_lt; lia).
  rewrite H1. cbn [bind].
  apply Nat.ltb_lt in H. rewrite H. reflexivity.
Qed.

Lemma SymGetModuleList_lambda_Done : forall m List List',
  SymGetModuleList_lambda m List = Done List' ->
  List' = List ++ [snapshot_entry m].
Proof.
  intros m List List'. unfold SymGetModuleList_lambda, CRT.strcpy_s, CRT.strcat_s.
  destruct (String.length (name m) <? MAX_MODULE_SIZE)%nat; [|discriminate].
  cbn [bind].
  destruct (String.length (name m) + String.length (extension m)
            <? MAX_MODULE_SIZE)%nat; [|discriminate].
  cbn [bind]. intros H. inversion H. reflexivity.
Qed.

Lemma ModEnum_from_fits : forall l List,
  names_fit l ->
  ModEnum_from l SymGetModuleList_lambda List
  = Done (List ++ map snapshot_entry l).
Proof.
  induction l as [|m l IH]; intros List H.
  - simpl. now rewrite app_nil_r.
  - inversion H as [|? ? Hm Hl]; subst.
    cbn [ModEnum_from map]. rewrite (SymGetModuleList_lambda_fits m List Hm).
    cbn [bind]. rewrite (IH _ Hl). now rewrite <- app_assoc.
Qed.

Lemma ModEnum_from_Done : forall l List List',
  ModEnum_from l SymGetModuleList_lambda List = Done List' ->
  List' = List ++ map snapshot_entry l.
Proof.
  induction l as [|m l IH]; intros List List' H.
  - simpl in H. inversion H. now rewrite app_nil_r.
  - cbn [ModEnum_from map] in H.
    destruct (SymGetModuleList_lambda m List) as [mid|f] eqn:E; [|discriminate].
    apply SymGetModuleList_lambda_Done in E. subst mid.
    cbn [bind] in H. apply IH in H. subst List'. now rewrite <- app_assoc.
Qed.

Lemma SymGetModuleList_Done : forall modules List r,
  SymGetModuleList modules List = Done r ->
  r = (true, List ++ map snapshot_entry modules).
Proof.
  intros modules List r. unfold SymGetModuleList, ModEnum.
  destruct (ModEnum_from modules SymGetModuleList_lambda List) as [l|f] eqn:E;
    [|discriminate].
  apply ModEnum_from_Done in E. subst l. cbn [bind].
  intros H. inversion H. reflexivity.
Qed.

Lemma SymGetModuleList_fits : forall modules List,
  names_fit modules ->
  SymGetModuleList modules List = Done (true, List ++ map snapshot_entry modules).
Proof.
  intros modules List H. unfold SymGetModuleList, ModEnum.
  rewrite (ModEnum_from_fits _ _ H). reflexivity.
Qed.

Lemma SymGetModuleList_lambda_cases : forall m List,
  SymGetModuleList_lambda m List
  = if (String.length (name m) + String.length (extension m)
        <? MAX_MODULE_SIZE)%nat
    then Done (List ++ [snapshot_entry m])
    else Crash InvalidParameter.
Proof.
  intros m List. unfold SymGetModuleList_lambda, CRT.strcpy_s, CRT.strcat_s.
  destruct (String.length (name m) <? MAX_MODULE_SIZE)%nat eqn:E1; cbn [bind].
  - destruct (String.length (name m) + String.length (extension m)
              <? MAX_MODULE_SIZE)%nat; reflexivity.
  - apply Nat.ltb_ge in E1.
    assert (E2 : (String.length (name m) + String.length (extension m)
                  <? MAX_MODULE_SIZE)%nat = false)
      by (apply Nat.ltb_ge; lia).
    now rewrite E2.
Qed.

Lemma ModEnum_from_outcome : forall l List,
  (names_fit l /\
   ModEnum_from l SymGetModuleList_lambda List
   = Done (List ++ map snapshot_entry l))
  \/ (~ names_fit l /\
      ModEnum_from l SymGetModuleList_lambda List = Crash InvalidParameter).
Proof.
  induction l as [|m l IH]; intros List.
  - left. split; [constructor|]. simpl. now rewrite app_nil_r.
  - cbn [ModEnum_from map]. rewrite SymGetModuleList_lambda_cases.
    destruct (String.length (name m) + String.length (extension m)
              <? MAX_MODULE_SIZE)%nat eqn:E.
    + apply Nat.ltb_lt in E. cbn [bind].
      destruct (IH (List ++ [snapshot_entry m])) as [[Hf Hr]|[Hf Hr]].
      * left. split; [now constructor|]. rewrite Hr.
        now rewrite <- app_assoc.
      * right. split; [|exact Hr]. intros H. inversion H. contradiction.
    + apply Nat.ltb_ge in E. right. split; [|reflexivity].
      intros H. inversion H as [|? ? Hm Hl]. subst. lia.
Qed.

(** C10, as the code has it.  [SymGetModuleList] has no other answer than
    true, so the branch of [SymUpdateModuleList] that publishes a count of
    zero with a null array is never taken.  When every name with its
    extension fits the name field of an entry, [SymUpdateModuleList]
    publishes one entry per module of the directory, in order, each with
    the module's base and its name followed by its extension; for an empty
    directory that is an empty array, not a null one.  When some name with
    its extension does not fit, neither function returns: the call ends in
    the invalid-parameter handler and nothing is published. *)
Theorem SymUpdateModuleList_publishes :
  forall modules,
    (forall List r, SymGetModuleList modules List = Done r -> fst r = true)
    /\ SymUpdateModuleList modules
       <> Done {| gui_count := 0; gui_modules := None |}
    /\ (names_fit modules ->
        SymGetModuleList modules [] = Done (true, map snapshot_entry modules)
        /\ SymUpdateModuleList modules
           = Done {| gui_count := int_cast (Z.of_nat (List.length modules));
                     gui_modules := Some (map snapshot_entry modules) |})
    /\ SymUpdateModuleList [] = Done {| gui_count := 0; gui_modules := Some [] |}
    /\ (~ names_fit modules ->
        SymGetModuleList modules [] = Crash InvalidParameter
        /\ SymUpdateModuleList modules = Crash InvalidParameter).
Proof.
  intros modules. split; [|split; [|split; [|split]]].
  - intros List r H. apply SymGetModuleList_Done in H. now subst r.
  - unfold SymUpdateModuleList.
    destruct (SymGetModuleList modules []) as [r|f] eqn:E; [|discriminate].
    apply SymGetModuleList_Done in E. subst r. cbn. discriminate.
  - intros H. split; [now apply (SymGetModuleList_fits modules [])|].
    unfold SymUpdateModuleList.
    rewrite (SymGetModuleList_fits modules [] H). cbn.
    now rewrite length_map.
  - reflexivity.
  - intros H. unfold SymUpdateModuleList, SymGetModuleList, ModEnum.
    destruct (ModEnum_from_outcome modules []) as [[Hf _]|[_ Hr]];
      [contradiction|].
    rewrite Hr. split; reflexivity.
Qed.

Lemma SymUpdateModuleList_publishes_witness :
  names_fit [Fixture.app 0 None; Fixture.lib]
  /\ SymUpdateModuleList [Fixture.app 0 None; Fixture.lib]
     = Done {| gui_count := 2;
               gui_modules :=
                 Some [{| module_base := 4194304; module_name := "app.exe" |};
                       {| module_base := 268435456; module_name := "lib.dll" |}] |}.
Proof.
  assert (H : names_fit [Fixture.app 0 None; Fixture.lib]).
  { unfold names_fit, MAX_MODULE_SIZE. repeat constructor; simpl; lia. }
  split; [exact H|].
  destruct (SymUpdateModuleList_publishes [Fixture.app 0 None; Fixture.lib])
    as [_ [_ [Hfit _]]].
  destruct (Hfit H) as [_ Hpub]. rewrite Hpub. reflexivity.
Defined.

(** C10 fails as stated: the name of the second module and its extension
    each fit a field of [MAX_MODULE_SIZE] characters but not one after the
    other; [SymGetModuleList] does not return true, it does not return, and
    [SymUpdateModuleList] publishes nothing. *)
Lemma SymUpdateModuleList_name_too_long :
  (String.length (name Fixture.long_named) < MAX_MODULE_SIZE)%nat
  /\ (String.length (extension Fixture.long_named) < MAX_MODULE_SIZE)%nat
  /\ SymGetModuleList [Fixture.lib; Fixture.long_named] []
     = Crash InvalidParameter
  /\ SymUpdateModuleList [Fixture.lib; Fixture.long_named]
     = Crash InvalidParameter.
Proof.
  split; [apply Nat.ltb_lt; vm_compute; reflexivity|].
  split; [apply Nat.ltb_lt; vm_compute; reflexivity|].
  split; vm_compute; reflexivity.
Qed.

(** ** Symbolic names *)

(** C7.  [SymGetSymbolicName] gives, for a label and a module name,
    [<module.label>]; for a label and no module, [<label>]; for a module
    name and no label, the module name, a dot and the address as [%p]
    prints it; for neither, the empty string.  The label is the one
    [DbgGetLabelAt] finds at the address, the module name the name without
    extension of the module that contains the address. *)
Theorem SymGetSymbolicName_precedence :
  forall modules DbgGetLabelAt format_p Address,
    (forall label modname,
        DbgGetLabelAt Address = Some label ->
        ModNameFromAddr modules Address false = Some modname ->
        SymGetSymbolicName modules DbgGetLabelAt format_p Address
        = ("<" ++ modname ++ "." ++ label ++ ">")%string)
    /\ (forall label,
           DbgGetLabelAt Address = Some label ->
           ModNameFromAddr modules Address false = None ->
           SymGetSymbolicName modules DbgGetLabelAt format_p Address
           = ("<" ++ label ++ ">")%string)
    /\ (forall modname,
           DbgGetLabelAt Address = None ->
           ModNameFromAddr modules Address false = Some modname ->
           SymGetSymbolicName modules DbgGetLabelAt format_p Address
           = (modname ++ "." ++ format_p Address)%string)
    /\ (DbgGetLabelAt Address = None ->
        ModNameFromAddr modules Address false = None ->
        SymGetSymbolicName modules DbgGetLabelAt format_p Address = "")
    /\ ModNameFromAddr modules Address false
       = option_map name (ModInfoFromAddr modules Address).
Proof.
  intros modules DbgGetLabelAt format_p Address.
  unfold SymGetSymbolicName. split; [|split; [|split; [|split]]].
  - intros label modname Hl Hm. now rewrite Hl, Hm.
  - intros label Hl Hm. now rewrite Hl, Hm.
  - intros modname Hl Hm. now rewrite Hl, Hm.
  - intros Hl Hm. now rewrite Hl, Hm.
  - unfold ModNameFromAddr. now destruct (ModInfoFromAddr modules Address).
Qed.

Lemma SymGetSymbolicName_precedence_witness :
  (Fixture.labels 4198400 = Some "start"
   /\ ModNameFromAddr [Fixture.app 0 None] 4198400 false = Some "app"
   /\ SymGetSymbolicName [Fixture.app 0 None] Fixture.labels Fixture.hex 4198400
      = "<app.start>")
  /\ (Fixture.labels 7 = Some "seven"
      /\ ModNameFromAddr [Fixture.app 0 None] 7 false = None
      /\ SymGetSymbolicName [Fixture.app 0 None] Fixture.labels Fixture.hex 7
         = "<seven>")
  /\ (Fixture.labels 4198404 = None
      /\ ModNameFromAddr [Fixture.app 0 None] 4198404 false = Some "app"
      /\ SymGetSymbolicName [Fixture.app 0 None] Fixture.labels Fixture.hex 4198404
         = "app.0000000000401004")
  /\ (Fixture.labels 8 = None
      /\ ModNameFromAddr [Fixture.app 0 None] 8 false = None
      /\ SymGetSymbolicName [Fixture.app 0 None] Fixture.labels Fixture.hex 8 = "").
Proof.
  pose proof (SymGetSymbolicName_precedence [Fixture.app 0 None]
                Fixture.labels Fixture.hex 4198400) as H1.
  pose proof (SymGetSymbolicName_precedence [Fixture.app 0 None]
                Fixture.labels Fixture.hex 7) as H2.
  pose proof (SymGetSymbolicName_precedence [Fixture.app 0 None]
                Fixture.labels Fixture.hex 4198404) as H3.
  pose proof (SymGetSymbolicName_precedence [Fixture.app 0 None]
                Fixture.labels Fixture.hex 8) as H4.
  exact (conj (conj eq_refl (conj eq_refl
                 (proj1 H1 "start" "app" eq_refl eq_refl)))
        (conj (conj eq_refl (conj eq_refl
                 (proj1 (proj2 H2) "seven" eq_refl eq_refl)))
        (conj (conj eq_refl (conj eq_refl
                 (proj1 (proj2 (proj2 H3)) "app" eq_refl eq_refl)))
              (conj eq_refl (conj eq_refl
                 (proj1 (proj2 (proj2 (proj2 H4))) eq_refl eq_refl)))))).
Defined.

(** ** Source lines *)

(** C9, as the code has it.  [SymGetSourceLine] answers true only when the
    address lies in a module whose symbols pointer is not null and is not
    the [EmptySymbolSource], and that source has line information for the
    address relative to the module base; whether the source is open is not
    asked.  The cells behind the output pointers that are not null then hold
    zero for the displacement, the line number of the lookup and the file
    path of the lookup.  Under those conditions the answer is true as long
    as the file path fits the caller's buffer.  When one of the conditions
    fails, the answer is false and no cell is touched. *)
Theorem SymGetSourceLine_result :
  forall arch modules Cip FileName Line disp,
    (forall outs,
        SymGetSourceLine arch modules Cip FileName Line disp = Done (true, outs) ->
        exists modInfo sym lineInfo,
          ModInfoFromAddr modules Cip = Some modInfo
          /\ symbols modInfo = Some sym
          /\ is_EmptySymbolSource sym = false
          /\ findSourceLineInfo sym (duint_sub arch Cip (base modInfo))
             = Some lineInfo
          /\ outs = (option_map (fun _ => CRT.c_str (sourceFile lineInfo)) FileName,
                     option_map (fun _ => lineNumber lineInfo) Line,
                     option_map (fun _ => 0) disp))
    /\ (forall modInfo sym lineInfo,
           ModInfoFromAddr modules Cip = Some modInfo ->
           symbols modInfo = Some sym ->
           is_EmptySymbolSource sym = false ->
           findSourceLineInfo sym (duint_sub arch Cip (base modInfo))
           = Some lineInfo ->
           (FileName = None
            \/ (String.length (CRT.c_str (sourceFile lineInfo))
                < MAX_STRING_SIZE)%nat) ->
           SymGetSourceLine arch modules Cip FileName Line disp
           = Done (true,
                   (option_map (fun _ => CRT.c_str (sourceFile lineInfo)) FileName,
                    option_map (fun _ => lineNumber lineInfo) Line,
                    option_map (fun _ => 0) disp)))
    /\ ((ModInfoFromAddr modules Cip = None
         \/ (exists modInfo,
                ModInfoFromAddr modules Cip = Some modInfo
                /\ (symbols modInfo = None
                    \/ exists sym,
                         symbols modInfo = Some sym
                         /\ (is_EmptySymbolSource sym = true
                             \/ findSourceLineInfo sym
                                  (duint_sub arch Cip (base modInfo)) = None)))) ->
        SymGetSourceLine arch modules Cip FileName Line disp
        = Done (false, (FileName, Line, disp))).
Proof.
  intros arch modules Cip FileName Line disp. unfold SymGetSourceLine.
  split; [|split].
  - intros outs H.
    destruct (ModInfoFromAddr modules Cip) as [modInfo|]; [|discriminate].
    destruct (symbols modInfo) as [sym|] eqn:Hs; [|discriminate].
    destruct (is_EmptySymbolSource sym) eqn:He; [discriminate|].
    destruct (findSourceLineInfo sym (duint_sub arch Cip (base modInfo)))
      as [lineInfo|] eqn:Hl; [|discriminate].
    exists modInfo, sym, lineInfo. repeat split; auto.
    destruct FileName as [old|].
    + unfold CRT.strcpy_s in H.
      destruct (String.length (CRT.c_str (sourceFile lineInfo))
                <? MAX_STRING_SIZE)%nat; [|discriminate].
      cbn in H. inversion H. reflexivity.
    + cbn in H. inversion H. reflexivity.
  - intros modInfo sym lineInfo Hm Hs He Hl Hfit.
    rewrite Hm, Hs, He, Hl.
    destruct FileName as [old|].
    + destruct Hfit as [Hnull|Hfit]; [discriminate|].
      unfold CRT.strcpy_s. apply Nat.ltb_lt in Hfit. rewrite Hfit. reflexivity.
    + reflexivity.
  - intros [Hm|[modInfo [Hm [Hs|[sym [Hs [He|Hl]]]]]]].
    + now rewrite Hm.
    + now rewrite Hm, Hs.
    + now rewrite Hm, Hs, He.
    + rewrite Hm, Hs, Hl. now destruct (is_EmptySymbolSource sym).
Qed.

Lemma SymGetSourceLine_result_witness :
  ModInfoFromAddr [Fixture.app 0 (Some (Fixture.source []))] 4198400
  = Some (Fixture.app 0 (Some (Fixture.source [])))
  /\ findSourceLineInfo (Fixture.source []) (duint_sub x64 4198400 4194304)
     = Some {| lineNumber := 12; sourceFile := "main.c" |}
  /\ SymGetSourceLine x64 [Fixture.app 0 (Some (Fixture.source []))] 4198400
       (Some "") (Some 0) None
     = Done (true, (Some "main.c", Some 12, None)).
Proof.
  split; [reflexivity|]. split; [reflexivity|].
  refine (proj1 (proj2 (SymGetSourceLine_result x64
                          [Fixture.app 0 (Some (Fixture.source []))] 4198400
                          (Some "") (Some 0) None))
            (Fixture.app 0 (Some (Fixture.source []))) (Fixture.source [])
            {| lineNumber := 12; sourceFile := "main.c" |}
            eq_refl eq_refl eq_refl eq_refl _).
  right. unfold MAX_STRING_SIZE. simpl. lia.
Defined.

(** C9 fails as stated: the source of the module is not open, and
    [SymGetSourceLine] answers true with the line the source has for the
    address. *)
Lemma SymGetSourceLine_closed_source :
  isOpen Fixture.closed_source = false
  /\ SymGetSourceLine x64 [Fixture.app 0 (Some Fixture.closed_source)] 4198400
       (Some "") (Some 0) (Some 5)
     = Done (true, (Some "main.c", Some 12, Some 0)).
Proof.
  split; [reflexivity | vm_compute; reflexivity].
Qed.

(** ** Addresses from names *)

Lemma strnicmp_Ordinal_prefix : forall rest,
  CRT._strnicmp ("Ordinal" ++ rest)%string "Ordinal" 7 = 0.
Proof.
  intros rest. vm_compute. reflexivity.
Qed.

(** C6.  [SymAddrFromName] answers false, leaves the output cell alone and
    makes no call to the engine when the name is null or empty, when the
    output pointer is null, or when the first seven characters of the name
    are [Ordinal] in any case, as in ["Ordinal5"].  For any other name it
    makes one call to the engine's name lookup and answers what the lookup
    answers; when the lookup succeeds the cell receives the address the
    engine found, converted to [duint], which is that address itself when it
    fits the pointer width; when it fails the cell is left alone. *)
Theorem SymAddrFromName_result :
  forall arch double Name Address e,
    ((Name = None \/ Name = Some "" \/ Address = None
      \/ exists text, Name = Some text /\ CRT._strnicmp text "Ordinal" 7 = 0) ->
     SymAddrFromName arch double Name Address e = (false, Address, e))
    /\ (forall rest,
           SymAddrFromName arch double (Some ("Ordinal" ++ rest)%string) Address e
           = (false, Address, e))
    /\ (forall text cell,
           Name = Some text -> text <> "" -> Address = Some cell ->
           CRT._strnicmp text "Ordinal" 7 <> 0 ->
           (succeeds double (calls e) (CSymFromName text) = true ->
            SymAddrFromName arch double Name Address e
            = (true,
               Some (duint_cast arch (symbol_address double (calls e) text)),
               received (CSymFromName text) e))
           /\ (succeeds double (calls e) (CSymFromName text) = false ->
               SymAddrFromName arch double Name Address e
               = (false, Address, received (CSymFromName text) e)))
    /\ (forall found, 0 <= found < 2 ^ duint_bits arch ->
                      duint_cast arch found = found).
Proof.
  intros arch double Name Address e. split; [|split; [|split]].
  - intros [H|[H|[H|[text [H Ho]]]]]; subst.
    + reflexivity.
    + reflexivity.
    + destruct Name as [[|c r]|]; reflexivity.
    + unfold SymAddrFromName. destruct text as [|c r]; [reflexivity|].
      destruct Address; [|reflexivity].
      apply Z.eqb_eq in Ho. now rewrite Ho.
  - intros rest. destruct Address; reflexivity.
  - intros text cell Hn Hne Ha Ho. subst Name Address.
    unfold SymAddrFromName. destruct text as [|c r]; [congruence|].
    apply Z.eqb_neq in Ho. rewrite Ho.
    unfold SafeSymFromName. split; intros Hs; rewrite Hs; reflexivity.
  - intros found H. unfold duint_cast. now apply Z.mod_small.
Qed.

Lemma SymAddrFromName_result_witness :
  CRT._strnicmp "main" "Ordinal" 7 <> 0
  /\ succeeds Fixture.willing (calls Fixture.engine0) (CSymFromName "main") = true
  /\ SymAddrFromName x64 Fixture.willing (Some "main") (Some 0) Fixture.engine0
     = (true, Some 4198400, received (CSymFromName "main") Fixture.engine0).
Proof.
  assert (Ho : CRT._strnicmp "main" "Ordinal" 7 <> 0) by (vm_compute; discriminate).
  assert (Hne : "main" <> "") by discriminate.
  split; [exact Ho|]. split; [reflexivity|].
  exact (proj1 (proj1 (proj2 (proj2 (SymAddrFromName_result x64 Fixture.willing
                                        (Some "main") (Some 0) Fixture.engine0)))
                  "main" 0 eq_refl Hne eq_refl Ho)
           eq_refl).
Defined.

(** ** The synchronization and the engine's global settings *)

Section SynchronizationFacts.

Variable double : EngineDouble.

Lemma options_untouched_refl : forall e, options_untouched e e.
Proof.
  intros e. split; [reflexivity|]. exists []. now rewrite app_nil_r.
Qed.

Lemma options_untouched_trans : forall e1 e2 e3,
  options_untouched e1 e2 -> options_untouched e2 e3 -> options_untouched e1 e3.
Proof.
  intros e1 e2 e3 [Ho1 [a1 [Hc1 Hf1]]] [Ho2 [a2 [Hc2 Hf2]]].
  split; [congruence|]. exists (a1 ++ a2). split.
  - rewrite Hc2, Hc1. now rewrite app_assoc.
  - rewrite filter_app, Hf1, Hf2. reflexivity.
Qed.

Lemma options_untouched_call : forall e path c,
  is_SymSetOptions c = false ->
  options_untouched e {| SymOptions := SymOptions e;
                         SearchPath := path;
                         calls := calls e ++ [c] |}.
Proof.
  intros e path c H. split; [reflexivity|]. exists [c]. split; [reflexivity|].
  simpl. now rewrite H.
Qed.

Lemma SafeSymSetSearchPathW_untouched : forall path e,
  options_untouched e (snd (SafeSymSetSearchPathW double path e)).
Proof.
  intros. unfold SafeSymSetSearchPathW. cbn [snd].
  now apply options_untouched_call.
Qed.

Lemma GetModuleFileNameExW_untouched : forall hModule e,
  options_untouched e (snd (GetModuleFileNameExW double hModule e)).
Proof.
  intros. unfold GetModuleFileNameExW, received. cbn [snd].
  now apply options_untouched_call.
Qed.

Lemma SafeSymUnloadModule64_untouched : forall BaseOfDll e,
  options_untouched e (snd (SafeSymUnloadModule64 double BaseOfDll e)).
Proof.
  intros. unfold SafeSymUnloadModule64, received. cbn [snd].
  now apply options_untouched_call.
Qed.

Lemma SafeSymLoadModuleExW_untouched : forall ImageName BaseOfDll e,
  options_untouched e (snd (SafeSymLoadModuleExW double ImageName BaseOfDll e)).
Proof.
  intros. unfold SafeSymLoadModuleExW, received. cbn [snd].
  now apply options_untouched_call.
Qed.

Lemma SafeSymGetModuleInfoW64_untouched : forall qwAddr e,
  options_untouched e (snd (SafeSymGetModuleInfoW64 double qwAddr e)).
Proof.
  intros. unfold SafeSymGetModuleInfoW64, received. cbn [snd].
  now apply options_untouched_call.
Qed.

(** One round of the inner loop, seen from the engine as the call that sets
    the search path left it. *)
Lemma SymDownloadAllSymbols_round_untouched : forall module cur_path rest e,
  (forall e0,
      options_untouched e0 (SymDownloadAllSymbols_paths double module rest e0)) ->
  options_untouched (snd (SafeSymSetSearchPathW double cur_path e))
    (SymDownloadAllSymbols_paths double module (cur_path :: rest) e).
Proof.
  intros module cur_path rest e IH. cbn [SymDownloadAllSymbols_paths].
  destruct (SafeSymSetSearchPathW double cur_path e) as [set_ok e1].
  cbn [snd].
  destruct set_ok; cbn [negb]; [|exact (IH e1)].
  pose proof (GetModuleFileNameExW_untouched (module_base module) e1) as Q2.
  destruct (GetModuleFileNameExW double (module_base module) e1)
    as [modulePath e2].
  cbn [snd] in Q2.
  destruct modulePath as [modulePath|];
    [|exact (options_untouched_trans _ _ _ Q2 (IH e2))].
  pose proof (SafeSymUnloadModule64_untouched (module_base module) e2) as P3.
  destruct (SafeSymUnloadModule64 double (module_base module) e2)
    as [unload_ok e3].
  cbn [snd] in P3.
  pose proof (options_untouched_trans _ _ _ Q2 P3) as Q3.
  destruct unload_ok; cbn [negb];
    [|exact (options_untouched_trans _ _ _ Q3 (IH e3))].
  pose proof (SafeSymLoadModuleExW_untouched modulePath (module_base module) e3)
    as P4.
  destruct (SafeSymLoadModuleExW double modulePath (module_base module) e3)
    as [load_ok e4].
  cbn [snd] in P4.
  pose proof (options_untouched_trans _ _ _ Q3 P4) as Q4.
  destruct load_ok; cbn [negb];
    [|exact (options_untouched_trans _ _ _ Q4 (IH e4))].
  pose proof (SafeSymGetModuleInfoW64_untouched (module_base module) e4) as P5.
  destruct (SafeSymGetModuleInfoW64 double (module_base module) e4)
    as [info e5].
  cbn [snd] in P5.
  pose proof (options_untouched_trans _ _ _ Q4 P5) as Q5.
  destruct info as [info_SymType|];
    [|exact (options_untouched_trans _ _ _ Q5 (IH e5))].
  destruct info_SymType;
    first [exact Q5 | exact (options_untouched_trans _ _ _ Q5 (IH e5))].
Qed.

(** The inner loop does not touch the option flags. *)
Lemma SymDownloadAllSymbols_paths_untouched : forall module paths e,
  options_untouched e (SymDownloadAllSymbols_paths double module paths e).
Proof.
  intros module paths.
  induction paths as [|cur_path rest IH]; intros e.
  - apply options_untouched_refl.
  - eapply options_untouched_trans.
    + apply (SafeSymSetSearchPathW_untouched cur_path e).
    + now apply SymDownloadAllSymbols_round_untouched.
Qed.

(** A round begins with the call that sets the search path. *)
Lemma SymDownloadAllSymbols_round_begins : forall module cur_path rest e,
  exists later,
    calls (SymDownloadAllSymbols_paths double module (cur_path :: rest) e)
    = calls e ++ [CSymSetSearchPathW cur_path] ++ later.
Proof.
  intros module cur_path rest e.
  destruct (SymDownloadAllSymbols_round_untouched module cur_path rest e
              (SymDownloadAllSymbols_paths_untouched module rest))
    as [_ [later [Hc _]]].
  exists later. rewrite Hc. unfold SafeSymSetSearchPathW. cbn [snd calls].
  now rewrite <- app_assoc.
Qed.

(** Neither does the outer loop. *)
Lemma SymDownloadAllSymbols_modules_untouched : forall modList paths e,
  options_untouched e (SymDownloadAllSymbols_modules double modList paths e).
Proof.
  intros modList paths. unfold SymDownloadAllSymbols_modules.
  induction modList as [|module rest IH]; intros e; cbn [fold_left].
  - apply options_untouched_refl.
  - eapply options_untouched_trans; [|apply IH].
    apply SymDownloadAllSymbols_paths_untouched.
Qed.

End SynchronizationFacts.

Lemma take_held_by_buffer : forall size s,
  held_by_buffer size s (CRT.take (size - 1) s).
Proof.
  intros size s. unfold held_by_buffer. generalize (size - 1)%nat as n.
  intros n. revert s. induction n as [|n IH]; intros s.
  - split; [exists s; reflexivity|]. simpl. now rewrite Nat.min_0_r.
  - destruct s as [|c s]; simpl.
    + split; [exists ""; reflexivity | reflexivity].
    + destruct (IH s) as [[rest Hr] Hl]. split.
      * exists rest. now rewrite <- Hr.
      * now rewrite Hl.
Qed.

Lemma app_of_same_length : forall kept rest : string,
  String.length kept = String.length (kept ++ rest) -> (kept ++ rest)%string = kept.
Proof.
  induction kept as [|c kept IH]; intros rest H; simpl in *.
  - destruct rest; [reflexivity | discriminate].
  - rewrite IH; [reflexivity | lia].
Qed.

Lemma held_by_buffer_fits : forall size whole kept,
  held_by_buffer size whole kept ->
  (String.length whole < size)%nat ->
  kept = whole.
Proof.
  intros size whole kept [[rest Hr] Hl] Hfit.
  rewrite Nat.min_l in Hl by lia. subst whole.
  symmetry. now apply app_of_same_length.
Qed.

Lemma relaxed_options_bits : forall symOptions n,
  0 <= n < 32 ->
  Z.testbit (relaxed_options symOptions) n
  = if n =? 7 then false else Z.testbit symOptions n.
Proof.
  intros o n Hn. unfold relaxed_options, DWORD_not, SYMOPT_IGNORE_CVREC.
  rewrite Z.land_spec.
  rewrite Z.mod_pow2_bits_low by lia.
  rewrite Z.lnot_spec by lia.
  change 128 with (2 ^ 7). rewrite Z.pow2_bits_eqb by lia.
  rewrite (Z.eqb_sym 7 n).
  destruct (n =? 7); cbn [negb].
  - apply andb_false_r.
  - apply andb_true_r.
Qed.

(** The call returns when the names fit the snapshot entries and the custom
    search path fits its buffer. *)
Lemma SymDownloadAllSymbols_returns :
  forall modules double szSymbolCachePath SymbolStore e,
    names_fit modules ->
    (String.length
       ("SRV*" ++ szSymbolCachePath ++ "*"
        ++ match SymbolStore with
           | None => "https://msdl.microsoft.com/download/symbols"
           | Some store => store
           end)%string < MAX_PATH * 2)%nat ->
    exists e',
      SymDownloadAllSymbols modules double szSymbolCachePath SymbolStore e
      = Done e'.
Proof.
  intros modules double cache SymbolStore e Hfit Hlen.
  unfold SymDownloadAllSymbols.
  rewrite (SymGetModuleList_fits modules [] Hfit). cbn [bind negb app].
  destruct (map snapshot_entry modules) as [|first others]; [eauto|].
  unfold SafeSymGetSearchPathW.
  destruct (succeeds double (calls e) CSymGetSearchPathW); [|eauto].
  unfold CRT.sprintf_s. apply Nat.ltb_lt in Hlen. rewrite Hlen.
  cbn [bind]. unfold SafeSymGetOptions.
  destruct (SafeSymSetSearchPathW double _ _) as [restored e6]. eauto.
Qed.

(** C2, as the code has it.  Let the module list be non-empty and the
    initial read of the search path succeed, and let [SymDownloadAllSymbols]
    return.  Then the option flags are what they were, whatever happened to
    the modules.  During the call the option flags were set twice: first to
    their initial value with the ignore-embedded-debug-record bit cleared and
    every other bit unchanged, last to their initial value.  The last call
    the engine received asks for the search path to be set to what the
    [MAX_PATH] buffer held of its initial value, which is the initial value
    itself when that is shorter than [MAX_PATH]; when that call succeeds
    the search path is what the buffer held, so it is what it was when the
    initial value fits the buffer and the call succeeds. *)
Theorem SymDownloadAllSymbols_restores :
  forall modules double szSymbolCachePath SymbolStore e e',
    modules <> [] ->
    succeeds double (calls e) CSymGetSearchPathW = true ->
    SymDownloadAllSymbols modules double szSymbolCachePath SymbolStore e
    = Done e' ->
    SymOptions e' = SymOptions e
    /\ (exists added,
           calls e' = calls e ++ added
           /\ filter is_SymSetOptions added
              = [CSymSetOptions (relaxed_options (SymOptions e));
                 CSymSetOptions (SymOptions e)])
    /\ (forall n, 0 <= n < 32 ->
                  Z.testbit (relaxed_options (SymOptions e)) n
                  = if n =? 7 then false else Z.testbit (SymOptions e) n)
    /\ (exists before oldSearchPath,
           calls e' = before ++ [CSymSetSearchPathW oldSearchPath]
           /\ held_by_buffer MAX_PATH (SearchPath e) oldSearchPath
           /\ ((String.length (SearchPath e) < MAX_PATH)%nat ->
               oldSearchPath = SearchPath e)
           /\ (succeeds double before (CSymSetSearchPathW oldSearchPath) = true ->
               SearchPath e' = oldSearchPath)
           /\ ((String.length (SearchPath e) < MAX_PATH)%nat ->
               succeeds double before (CSymSetSearchPathW (SearchPath e)) = true ->
               SearchPath e' = SearchPath e)).
Proof.
  intros modules double cache SymbolStore e e' Hne Hread Hrun.
  unfold SymDownloadAllSymbols in Hrun.
  destruct (SymGetModuleList modules []) as [r|f] eqn:E; [|discriminate].
  apply SymGetModuleList_Done in E. subst r. cbn [bind negb app] in Hrun.
  destruct modules as [|m ms]; [congruence|]. cbn [map] in Hrun.
  unfold SafeSymGetSearchPathW in Hrun. rewrite Hread in Hrun.
  pose proof (take_held_by_buffer MAX_PATH (SearchPath e)) as Hheld.
  remember (CRT.take (MAX_PATH - 1) (SearchPath e)) as oldSearchPath.
  clear HeqoldSearchPath.
  destruct (CRT.sprintf_s _ _) as [customSearchPath|f]; [|discriminate].
  cbn [bind] in Hrun. unfold SafeSymGetOptions in Hrun.
  fold (relaxed_options (SymOptions (received CSymGetSearchPathW e))) in Hrun.
  remember (SafeSymSetOptions
              (relaxed_options (SymOptions (received CSymGetSearchPathW e)))
              (received CSymGetOptions (received CSymGetSearchPathW e))) as e3.
  pose proof (SymDownloadAllSymbols_modules_untouched double
                (snapshot_entry m :: map snapshot_entry ms)
                (search_paths customSearchPath) e3) as [Ho [added [Hc Hf]]].
  remember (SymDownloadAllSymbols_modules double
              (snapshot_entry m :: map snapshot_entry ms)
              (search_paths customSearchPath) e3) as e4.
  unfold SafeSymSetSearchPathW, SafeSymSetOptions in Hrun.
  cbn [calls SymOptions SearchPath received] in Hrun.
  inversion Hrun as [He']. clear Hrun.
  cbn [calls SymOptions SearchPath].
  assert (Hfits : (String.length (SearchPath e) < MAX_PATH)%nat ->
                  oldSearchPath = SearchPath e)
    by (intros H; exact (held_by_buffer_fits _ _ _ Hheld H)).
  split; [reflexivity|]. split; [|split].
  - exists ([CSymGetSearchPathW; CSymGetOptions;
             CSymSetOptions (relaxed_options (SymOptions e))]
            ++ added
            ++ [CSymSetOptions (SymOptions e);
                CSymSetSearchPathW oldSearchPath]).
    split.
    + rewrite Hc. subst e3. unfold SafeSymSetOptions, received.
      cbn [calls SymOptions SearchPath].
      rewrite <- !app_assoc. reflexivity.
    + rewrite !filter_app, Hf. reflexivity.
  - apply relaxed_options_bits.
  - exists (calls e4 ++ [CSymSetOptions (SymOptions e)]), oldSearchPath.
    split; [rewrite <- app_assoc; reflexivity|].
    split; [exact Hheld|]. split; [exact Hfits|]. split.
    + intros Hs. rewrite Hs. reflexivity.
    + intros Hlen Hs. rewrite (Hfits Hlen). rewrite Hs. reflexivity.
Qed.

Lemma SymDownloadAllSymbols_restores_witness :
  [Fixture.app 0 None; Fixture.lib] <> []
  /\ succeeds Fixture.willing (calls Fixture.engine0) CSymGetSearchPathW = true
  /\ (exists e',
         SymDownloadAllSymbols [Fixture.app 0 None; Fixture.lib] Fixture.willing
           "C:\cache" None Fixture.engine0 = Done e'
         /\ SymOptions e' = SymOptions Fixture.engine0).
Proof.
  split; [discriminate|]. split; [reflexivity|].
  eexists. split.
  - vm_compute. reflexivity.
  - refine (proj1 (SymDownloadAllSymbols_restores
                     [Fixture.app 0 None; Fixture.lib] Fixture.willing
                     "C:\cache" None Fixture.engine0 _ _ eq_refl _)).
    + discriminate.
    + vm_compute. reflexivity.
Defined.

(** C2 fails as stated: the read of the search path succeeds, there is a
    module, its symbols load at the first attempt, and the search path is
    not what it was when the call returns, because the engine refuses to set
    it back. *)
Lemma SymDownloadAllSymbols_path_not_restored :
  succeeds Fixture.stubborn (calls Fixture.engine0) CSymGetSearchPathW = true
  /\ SymDownloadAllSymbols [Fixture.app 0 None] Fixture.stubborn
       "C:\cache" None Fixture.engine0
     = Done {| SymOptions := 146;
               SearchPath := "";
               calls := [CSymGetSearchPathW; CSymGetOptions; CSymSetOptions 18;
                         CSymSetSearchPathW "";
                         CGetModuleFileNameExW 4194304;
                         CSymUnloadModule64 4194304;
                         CSymLoadModuleExW "C:\app.exe" 4194304;
                         CSymGetModuleInfoW64 4194304;
                         CSymSetOptions 146;
                         CSymSetSearchPathW "C:\symbols"] |}
  /\ SearchPath Fixture.engine0 = "C:\symbols"
  /\ "" <> SearchPath Fixture.engine0.
Proof.
  split; [reflexivity|]. split; [vm_compute; reflexivity|].
  split; [reflexivity | discriminate].
Qed.

(** A search path that is longer than the buffer comes back cut: every call
    succeeds, and the path of 300 characters is 259 characters long after
    the call. *)
Lemma SymDownloadAllSymbols_long_path_cut :
  exists e',
    SymDownloadAllSymbols [Fixture.app 0 None] Fixture.willing
      "C:\cache" None Fixture.long_path_engine = Done e'
    /\ String.length (SearchPath Fixture.long_path_engine) = 300%nat
    /\ String.length (SearchPath e') = 259%nat.
Proof.
  eexists. split; [vm_compute; reflexivity|].
  split; vm_compute; reflexivity.
Qed.

(** ** The synchronization and a module whose image path is not found *)

(** C4, as the code has it.  When the search path is set and the image path
    of the module is then not found, the loop over the candidate paths goes
    on with the paths that remain, for the same module and from the engine as
    those two calls left it.  With a candidate left, the next call the engine
    receives sets the search path to that candidate; with none left, the loop
    ends there and the next module is taken. *)
Theorem SymDownloadAllSymbols_image_path_failure :
  forall double module cur_path rest e,
    succeeds double (calls e) (CSymSetSearchPathW cur_path) = true ->
    succeeds double (calls e ++ [CSymSetSearchPathW cur_path])
      (CGetModuleFileNameExW (module_base module)) = false ->
    let after :=
      {| SymOptions := SymOptions e;
         SearchPath := cur_path;
         calls := calls e ++ [CSymSetSearchPathW cur_path;
                              CGetModuleFileNameExW (module_base module)] |} in
    SymDownloadAllSymbols_paths double module (cur_path :: rest) e
    = SymDownloadAllSymbols_paths double module rest after
    /\ (rest = [] ->
        SymDownloadAllSymbols_paths double module (cur_path :: rest) e = after)
    /\ (forall next others,
           rest = next :: others ->
           exists later,
             calls (SymDownloadAllSymbols_paths double module (cur_path :: rest) e)
             = calls e ++ [CSymSetSearchPathW cur_path;
                           CGetModuleFileNameExW (module_base module);
                           CSymSetSearchPathW next] ++ later).
Proof.
  intros double module cur_path rest e Hset Hpath after.
  assert (Hstep : SymDownloadAllSymbols_paths double module (cur_path :: rest) e
                  = SymDownloadAllSymbols_paths double module rest after).
  { cbn [SymDownloadAllSymbols_paths].
    unfold SafeSymSetSearchPathW. rewrite Hset. cbn [negb].
    unfold GetModuleFileNameExW. cbn [calls]. rewrite Hpath.
    unfold received. cbn [calls SymOptions SearchPath].
    rewrite <- app_assoc. reflexivity. }
  split; [exact Hstep|]. split.
  - intros Hrest. rewrite Hstep, Hrest. reflexivity.
  - intros next others Hrest. rewrite Hstep, Hrest.
    destruct (SymDownloadAllSymbols_round_begins double module next others after)
      as [later Hc].
    exists later. rewrite Hc. unfold after. cbn [calls].
    rewrite <- !app_assoc. reflexivity.
Qed.

Lemma SymDownloadAllSymbols_image_path_failure_witness :
  succeeds Fixture.pathless (calls Fixture.engine0) (CSymSetSearchPathW "") = true
  /\ succeeds Fixture.pathless
       (calls Fixture.engine0 ++ [CSymSetSearchPathW ""])
       (CGetModuleFileNameExW 4194304) = false
  /\ SymDownloadAllSymbols_paths Fixture.pathless
       (snapshot_entry (Fixture.app 0 None)) [""; "SRV*C:\cache*store"]
       Fixture.engine0
     = SymDownloadAllSymbols_paths Fixture.pathless
         (snapshot_entry (Fixture.app 0 None)) ["SRV*C:\cache*store"]
         {| SymOptions := 146;
            SearchPath := "";
            calls := [CSymSetSearchPathW ""; CGetModuleFileNameExW 4194304] |}.
Proof.
  split; [reflexivity|]. split; [reflexivity|].
  exact (proj1 (SymDownloadAllSymbols_image_path_failure Fixture.pathless
                  (snapshot_entry (Fixture.app 0 None)) ""
                  ["SRV*C:\cache*store"] Fixture.engine0 eq_refl eq_refl)).
Defined.

(** C4 fails as stated: the image path of the first module is not found
    under the first candidate path, and the engine is then asked to set the
    second candidate path and to find the image path of the same module
    again, before anything is asked about the second module. *)
Lemma SymDownloadAllSymbols_image_path_retried :
  succeeds Fixture.pathless
    [CSymGetSearchPathW; CSymGetOptions; CSymSetOptions 18; CSymSetSearchPathW ""]
    (CGetModuleFileNameExW 4194304) = false
  /\ (exists e',
         SymDownloadAllSymbols [Fixture.app 0 None; Fixture.lib] Fixture.pathless
           "C:\cache" (Some "store") Fixture.engine0 = Done e'
         /\ calls e'
            = [CSymGetSearchPathW; CSymGetOptions; CSymSetOptions 18;
               CSymSetSearchPathW "";
               CGetModuleFileNameExW 4194304;
               CSymSetSearchPathW "SRV*C:\cache*store";
               CGetModuleFileNameExW 4194304;
               CSymSetSearchPathW "";
               CGetModuleFileNameExW 268435456;
               CSymSetSearchPathW "SRV*C:\cache*store";
               CGetModuleFileNameExW 268435456;
               CSymSetOptions 146;
               CSymSetSearchPathW "C:\symbols"]
         /\ count_occ Call_eq_dec (calls e') (CGetModuleFileNameExW 4194304)
            = 2%nat).
Proof.
  split; [reflexivity|].
  eexists. split; [vm_compute; reflexivity|].
  split; [reflexivity | vm_compute; reflexivity].
Qed.

(** ** More about the runtime functions *)

Lemma string_app_nil_r : forall s : string, (s ++ "")%string = s.
Proof.
  induction s as [|c s IH]; simpl; [reflexivity | now rewrite IH].
Qed.

Lemma string_app_assoc : forall a b c : string,
  ((a ++ b) ++ c)%string = (a ++ b ++ c)%string.
Proof.
  induction a as [|x a IH]; intros; simpl; [reflexivity | now rewrite IH].
Qed.

Lemma string_app_length : forall a b : string,
  String.length (a ++ b) = (String.length a + String.length b)%nat.
Proof.
  induction a as [|x a IH]; intros; simpl; [reflexivity | now rewrite IH].
Qed.

Lemma code_inj : forall c d, CRT.code c = CRT.code d -> c = d.
Proof.
  intros c d H. unfold CRT.code in H. apply Nat2Z.inj in H.
  rewrite <- (ascii_nat_embedding c), <- (ascii_nat_embedding d).
  now rewrite H.
Qed.

Lemma code_nonneg : forall c, 0 <= CRT.code c.
Proof.
  intros c. unfold CRT.code. lia.
Qed.

Lemma prefix_occurs : forall p s,
  String.prefix p s = true <-> exists rest, s = (p ++ rest)%string.
Proof.
  induction p as [|a p IH]; intros s.
  - split; [intros _; now exists s | intros _; now destruct s].
  - destruct s as [|b s]; cbn [String.prefix].
    + split; [discriminate | intros [rest H]; discriminate].
    + destruct (ascii_dec a b) as [E|E].
      * subst b. rewrite IH. split; intros [rest H]; exists rest.
        -- now rewrite H.
        -- now inversion H.
      * split; [discriminate|]. intros [rest H]. inversion H. congruence.
Qed.

(** [strstr] finds a needle exactly when it occurs. *)
Lemma strstr_occurs : forall needle haystack,
  CRT.strstr haystack needle <> None <-> occurs_in needle haystack.
Proof.
  intros needle haystack. unfold occurs_in.
  induction haystack as [|c rest IH].
  - cbn [CRT.strstr].
    destruct (String.prefix needle "") eqn:P.
    + split; [intros _|discriminate].
      apply prefix_occurs in P. destruct P as [after H].
      exists "", after. exact H.
    + split; [congruence|]. intros [before [after H]].
      destruct before as [|x before]; [|discriminate].
      assert (String.prefix needle "" = true)
        by (apply prefix_occurs; exists after; exact H).
      congruence.
  - cbn [CRT.strstr].
    destruct (String.prefix needle (String c rest)) eqn:P.
    + split; [intros _|discriminate].
      apply prefix_occurs in P. destruct P as [after H].
      exists "", after. exact H.
    + rewrite IH. split.
      * intros [before [after H]]. exists (String c before), after.
        simpl. now rewrite H.
      * intros [before [after H]].
        destruct before as [|x before].
        -- assert (String.prefix needle (String c rest) = true)
             by (apply prefix_occurs; exists after; exact H).
           congruence.
        -- inversion H. exists before, after. reflexivity.
Qed.

Lemma no_NUL_tail : forall c s,
  no_NUL (String c s) -> CRT.code c <> 0 /\ no_NUL s.
Proof.
  intros c s H. split.
  - apply (H "" c s). reflexivity.
  - intros before d after E. apply (H (String c before) d after).
    simpl. now rewrite E.
Qed.

(** [strncmp] over the length of a prefix answers zero exactly when the
    text starts with the prefix. *)
Lemma strncmp_zero_prefix : forall p s,
  no_NUL p ->
  (CRT.strncmp s p (String.length p) = 0 <-> exists rest, s = (p ++ rest)%string).
Proof.
  induction p as [|d p IH]; intros s Hp.
  - simpl. split; [intros _; now exists s | reflexivity].
  - apply no_NUL_tail in Hp. destruct Hp as [Hd Hp].
    cbn [String.length CRT.strncmp].
    destruct s as [|c s].
    + split.
      * pose proof (code_nonneg d). lia.
      * intros [rest H]. discriminate.
    + destruct (Z.eqb_spec (CRT.code c) (CRT.code d)) as [E|E].
      * apply code_inj in E. subst c. rewrite (IH s Hp).
        split; intros [rest H]; exists rest.
        -- simpl. now rewrite H.
        -- now inversion H.
      * split; [lia|]. intros [rest H]. inversion H. congruence.
Qed.

Lemma take_length : forall n s, (String.length (CRT.take n s) <= n)%nat.
Proof.
  induction n as [|n IH]; intros s; simpl; [lia|].
  destruct s as [|c s]; simpl; [lia|]. specialize (IH s). lia.
Qed.

Lemma take_is_prefix : forall n s,
  exists rest, s = (CRT.take n s ++ rest)%string.
Proof.
  induction n as [|n IH]; intros s; simpl.
  - now exists s.
  - destruct s as [|c s]; [now exists ""|].
    destruct (IH s) as [rest H]. exists rest. simpl. now rewrite <- H.
Qed.

Lemma c_str_no_NUL : forall s, no_NUL (CRT.c_str s).
Proof.
  induction s as [|c s IH]; intros before d after E.
  - destruct before; discriminate.
  - cbn [CRT.c_str] in E.
    destruct (Z.eqb_spec (CRT.code c) 0) as [Z|Z].
    + destruct before; discriminate.
    + destruct before as [|x before]; simpl in E; inversion E; subst.
      * exact Z.
      * now apply (IH before d after).
Qed.

Lemma take_no_NUL : forall n s, no_NUL s -> no_NUL (CRT.take n s).
Proof.
  intros n s H before d after E.
  destruct (take_is_prefix n s) as [rest R].
  apply (H before d (after ++ rest)%string).
  rewrite R, E, string_app_assoc. reflexivity.
Qed.

Lemma buffered_length : forall s,
  (String.length (buffered s) < MAX_SYM_NAME)%nat.
Proof.
  intros s. unfold buffered, CRT.strncpy_s_TRUNCATE, MAX_SYM_NAME.
  pose proof (take_length (2000 - 1) (CRT.c_str s)). lia.
Qed.

Lemma truncated_length : forall s,
  (String.length (CRT.strncpy_s_TRUNCATE MAX_SYM_NAME s) < MAX_SYM_NAME)%nat.
Proof.
  intros s. unfold CRT.strncpy_s_TRUNCATE, MAX_SYM_NAME.
  pose proof (take_length (2000 - 1) s). lia.
Qed.

Lemma imp_prefix_no_NUL : no_NUL "__imp_".
Proof.
  intros before c after E.
  assert (H : In c (list_ascii_of_string "__imp_")).
  { rewrite E. clear E. induction before as [|x before IH]; simpl; auto. }
  simpl in H.
  repeat (destruct H as [H|H]; [subst c; vm_compute; discriminate|]).
  contradiction.
Qed.

Lemma is_import_thunk_name_prefix : forall decorated,
  is_import_thunk_name decorated = true
  <-> exists rest, decorated = ("__imp_" ++ rest)%string.
Proof.
  intros decorated. unfold is_import_thunk_name. rewrite Z.eqb_eq.
  exact (strncmp_zero_prefix "__imp_" decorated imp_prefix_no_NUL).
Qed.

Lemma is_ordinal_placeholder_occurs : forall decorated,
  is_ordinal_placeholder decorated = true <-> occurs_in "Ordinal" decorated.
Proof.
  intros decorated. rewrite <- strstr_occurs. unfold is_ordinal_placeholder.
  destruct (CRT.strstr decorated "Ordinal"); split; congruence.
Qed.

(** ** More about the enumeration *)

(** X1.  In what [SymEnum] shows to the visitor, every import is flagged as
    imported, the entry point pseudo-symbol is not, and an indexed symbol is
    flagged exactly when its decorated name starts with [__imp_]. *)
Theorem SymEnum_imported_flags :
  forall arch modules imports_of undecorate Base seen,
    SymEnum arch modules imports_of undecorate (list SYMBOLINFO) Base recorder []
    = Done seen ->
    seen = indexed_sequence arch modules Base
           ++ entry_sequence modules Base
           ++ import_sequence imports_of undecorate Base
    /\ Forall (fun s => exists decorated,
                   decoratedSymbol s = Some decorated
                   /\ (isImported s = true
                       <-> exists rest, decorated = ("__imp_" ++ rest)%string))
              (indexed_sequence arch modules Base)
    /\ Forall (fun s => isImported s = false) (entry_sequence modules Base)
    /\ Forall (fun s => isImported s = true)
              (import_sequence imports_of undecorate Base).
Proof.
  intros arch modules imports_of undecorate Base seen Hrun.
  split; [now apply SymEnum_recorded|]. split; [|split].
  - unfold indexed_sequence.
    destruct (ModInfoFromAddr modules Base) as [m|]; [|constructor].
    destruct (symbols m) as [sym|]; [|constructor].
    destruct (isOpen sym); [|constructor].
    apply Forall_forall. intros s Hin.
    unfold indexed_pass in Hin. apply in_flat_map in Hin.
    destruct Hin as [info [_ Hs]].
    destruct (suppressed arch Base info); [contradiction|].
    destruct Hs as [Hs|[]]. subst s.
    exists (buffered (decoratedName info)). split; [reflexivity|].
    cbn [indexed_symbol isImported]. apply is_import_thunk_name_prefix.
  - unfold entry_sequence.
    destruct (ModInfoFromAddr modules Base) as [m|]; [|constructor].
    destruct (entry m =? 0); repeat constructor.
  - unfold import_sequence. apply Forall_forall. intros s Hin.
    apply in_map_iff in Hin. destruct Hin as [imp [Hs _]]. now subst s.
Qed.

Lemma SymEnum_imported_flags_witness :
  SymEnum x64
    [Fixture.app 4198400
       (Some (Fixture.source [Fixture.main_info; Fixture.thunk_info]))]
    Fixture.app_imports Fixture.undecorate (list SYMBOLINFO) 4194304 recorder []
  = Done (map (indexed_symbol x64 4194304) [Fixture.main_info; Fixture.thunk_info]
          ++ [entry_point_symbol 4198400]
          ++ map (import_symbol Fixture.undecorate) (Fixture.app_imports 4194304))
  /\ Forall (fun s => isImported s = true)
            (import_sequence Fixture.app_imports Fixture.undecorate 4194304).
Proof.
  assert (Hrun : SymEnum x64
                   [Fixture.app 4198400
                      (Some (Fixture.source [Fixture.main_info; Fixture.thunk_info]))]
                   Fixture.app_imports Fixture.undecorate (list SYMBOLINFO)
                   4194304 recorder []
                 = Done (map (indexed_symbol x64 4194304)
                           [Fixture.main_info; Fixture.thunk_info]
                         ++ [entry_point_symbol 4198400]
                         ++ map (import_symbol Fixture.undecorate)
                              (Fixture.app_imports 4194304))).
  { vm_compute. reflexivity. }
  split; [exact Hrun|].
  exact (proj2 (proj2 (proj2 (SymEnum_imported_flags x64 _ _ _ _ _ Hrun)))).
Defined.

(** X2.  The names [SymEnum] shows to the visitor fit the scratch buffers:
    a decorated name is always shorter than [MAX_SYM_NAME]; for an indexed
    symbol the decorated name holds no NUL, the undecorated name, when
    there is one, is shorter than [MAX_SYM_NAME] and holds no NUL, and
    the address is a value of pointer width. *)
Theorem SymEnum_name_bounds :
  forall arch modules imports_of undecorate Base seen s,
    SymEnum arch modules imports_of undecorate (list SYMBOLINFO) Base recorder []
    = Done seen ->
    In s seen ->
    (forall decorated,
        decoratedSymbol s = Some decorated ->
        (String.length decorated < MAX_SYM_NAME)%nat)
    /\ (In s (indexed_sequence arch modules Base) ->
        (forall decorated, decoratedSymbol s = Some decorated -> no_NUL decorated)
        /\ (forall undecorated,
               undecoratedSymbol s = Some undecorated ->
               (String.length undecorated < MAX_SYM_NAME)%nat
               /\ no_NUL undecorated)
        /\ 0 <= addr s < 2 ^ duint_bits arch).
Proof.
  intros arch modules imports_of undecorate Base seen s Hrun Hin.
  apply SymEnum_recorded in Hrun. subst seen.
  assert (Hidx : forall x, In x (indexed_sequence arch modules Base) ->
                           exists info, x = indexed_symbol arch Base info).
  { intros x Hx. unfold indexed_sequence in Hx.
    destruct (ModInfoFromAddr modules Base) as [m|]; [|contradiction].
    destruct (symbols m) as [sym|]; [|contradiction].
    destruct (isOpen sym); [|contradiction].
    unfold indexed_pass in Hx. apply in_flat_map in Hx.
    destruct Hx as [info [_ Hs]].
    destruct (suppressed arch Base info); [contradiction|].
    destruct Hs as [Hs|[]]. now exists info. }
  split.
  - intros decorated Hd.
    apply in_app_or in Hin. destruct Hin as [Hin|Hin].
    + destruct (Hidx s Hin) as [info Hs]. subst s.
      cbn [indexed_symbol decoratedSymbol] in Hd. inversion Hd.
      apply buffered_length.
    + apply in_app_or in Hin. destruct Hin as [Hin|Hin].
      * unfold entry_sequence in Hin.
        destruct (ModInfoFromAddr modules Base) as [m|]; [|contradiction].
        destruct (entry m =? 0); [contradiction|].
        destruct Hin as [Hs|[]]. subst s.
        cbn [entry_point_symbol decoratedSymbol] in Hd. inversion Hd.
        apply Nat.ltb_lt. vm_compute. reflexivity.
      * unfold import_sequence in Hin. apply in_map_iff in Hin.
        destruct Hin as [imp [Hs _]]. subst s.
        cbn [import_symbol decoratedSymbol] in Hd. inversion Hd.
        apply truncated_length.
  - intros Hi. destruct (Hidx s Hi) as [info Hs]. subst s.
    cbn [indexed_symbol decoratedSymbol undecoratedSymbol addr].
    split; [|split].
    + intros decorated Hd. inversion Hd.
      unfold buffered, CRT.strncpy_s_TRUNCATE.
      apply take_no_NUL, c_str_no_NUL.
    + intros undecorated Hu.
      destruct (String.eqb (decoratedName info) (undecoratedName info));
        [discriminate|].
      inversion Hu. split; [apply buffered_length|].
      unfold buffered, CRT.strncpy_s_TRUNCATE.
      apply take_no_NUL, c_str_no_NUL.
    + unfold duint_add, duint_cast. apply Z.mod_pos_bound.
      destruct arch; reflexivity.
Qed.

Lemma SymEnum_name_bounds_witness :
  SymEnum x64 [Fixture.app 0 (Some (Fixture.source [Fixture.main_info]))]
    Fixture.no_imports Fixture.undecorate (list SYMBOLINFO) 4194304 recorder []
  = Done [indexed_symbol x64 4194304 Fixture.main_info]
  /\ In (indexed_symbol x64 4194304 Fixture.main_info)
        [indexed_symbol x64 4194304 Fixture.main_info]
  /\ (String.length "?main@@YAHXZ" < MAX_SYM_NAME)%nat.
Proof.
  assert (Hrun : SymEnum x64 [Fixture.app 0 (Some (Fixture.source [Fixture.main_info]))]
                   Fixture.no_imports Fixture.undecorate (list SYMBOLINFO)
                   4194304 recorder []
                 = Done [indexed_symbol x64 4194304 Fixture.main_info]).
  { vm_compute. reflexivity. }
  assert (Hin : In (indexed_symbol x64 4194304 Fixture.main_info)
                   [indexed_symbol x64 4194304 Fixture.main_info]).
  { simpl. left. reflexivity. }
  split; [exact Hrun|]. split; [exact Hin|].
  exact (proj1 (SymEnum_name_bounds x64 _ _ _ _ _ _ Hrun Hin)
           "?main@@YAHXZ" eq_refl).
Defined.

(** X3.  The visitor is called at least once per import and at most once
    per entry of the symbol table, once more, and once per import.  When no
    module contains [Base], it sees the imports and nothing else. *)
Theorem SymEnum_visit_count :
  forall arch modules imports_of undecorate Base seen,
    SymEnum arch modules imports_of undecorate (list SYMBOLINFO) Base recorder []
    = Done seen ->
    (List.length (imports_of Base) <= List.length seen)%nat
    /\ (List.length seen
        <= table_length modules Base + 1 + List.length (imports_of Base))%nat
    /\ (ModInfoFromAddr modules Base = None ->
        seen = map (import_symbol undecorate) (imports_of Base)).
Proof.
  intros arch modules imports_of undecorate Base seen Hrun.
  apply SymEnum_recorded in Hrun. subst seen.
  assert (Hpass : forall entries,
             (List.length (indexed_pass arch Base entries)
              <= List.length entries)%nat).
  { induction entries as [|info rest IH]; [simpl; lia|].
    unfold indexed_pass in *. cbn [flat_map]. rewrite length_app.
    destruct (suppressed arch Base info); simpl; lia. }
  rewrite !length_app.
  unfold import_sequence. rewrite length_map.
  unfold indexed_sequence, entry_sequence, table_length.
  destruct (ModInfoFromAddr modules Base) as [m|].
  - split; [lia|]. split; [|discriminate].
    destruct (symbols m) as [sym|].
    + destruct (isOpen sym).
      * specialize (Hpass (indexed sym)).
        destruct (entry m =? 0); simpl; lia.
      * destruct (entry m =? 0); simpl; lia.
    + destruct (entry m =? 0); simpl; lia.
  - split; [simpl; lia|]. split; [simpl; lia|]. reflexivity.
Qed.

Lemma SymEnum_visit_count_witness :
  SymEnum x64 [Fixture.lib] Fixture.app_imports Fixture.undecorate
    (list SYMBOLINFO) 4194304 recorder []
  = Done (map (import_symbol Fixture.undecorate) (Fixture.app_imports 4194304))
  /\ (List.length (Fixture.app_imports 4194304)
      <= List.length (map (import_symbol Fixture.undecorate)
                        (Fixture.app_imports 4194304)))%nat.
Proof.
  assert (Hrun : SymEnum x64 [Fixture.lib] Fixture.app_imports Fixture.undecorate
                   (list SYMBOLINFO) 4194304 recorder []
                 = Done (map (import_symbol Fixture.undecorate)
                           (Fixture.app_imports 4194304))).
  { vm_compute. reflexivity. }
  split; [exact Hrun|].
  exact (proj1 (SymEnum_visit_count x64 _ _ _ _ _ Hrun)).
Defined.

(** X4.  The callback [SymEnum] gives to the SymbolSource leaves the
    visitor out for an entry exactly when [Ordinal] occurs in the entry's
    decorated name as it stands in the buffer and [Base] plus the entry's
    offset is [Base]; in that case the user data is untouched, otherwise the
    visitor is shown the entry's symbol.  Either way the callback answers
    continue. *)
Theorem SymEnum_lambda_ordinal :
  forall arch (U : Type) Base (visitor : CBSYMBOLENUM U) info (user : U),
    (occurs_in "Ordinal" (buffered (decoratedName info))
     /\ duint_add arch Base (info_addr info) = Base ->
     SymEnum_lambda arch U Base visitor info user = (true, user))
    /\ (~ (occurs_in "Ordinal" (buffered (decoratedName info))
           /\ duint_add arch Base (info_addr info) = Base) ->
        SymEnum_lambda arch U Base visitor info user
        = (true, snd (visitor (indexed_symbol arch Base info) user))).
Proof.
  intros arch U Base visitor info user. rewrite SymEnum_lambda_step.
  unfold suppressed.
  destruct (is_ordinal_placeholder (buffered (decoratedName info))) eqn:Ho.
  - apply is_ordinal_placeholder_occurs in Ho. cbn [andb].
    destruct (Z.eqb_spec (duint_add arch Base (info_addr info)) Base) as [E|E].
    + split; [reflexivity|]. intros H. exfalso. apply H. now split.
    + split; [|reflexivity]. intros [_ H]. contradiction.
  - cbn [andb]. split; [|reflexivity].
    intros [H _]. apply is_ordinal_placeholder_occurs in H. congruence.
Qed.

Lemma SymEnum_lambda_ordinal_witness :
  occurs_in "Ordinal" (buffered (decoratedName Fixture.ordinal_at_base))
  /\ duint_add x64 4194304 (info_addr Fixture.ordinal_at_base) = 4194304
  /\ SymEnum_lambda x64 (list SYMBOLINFO) 4194304 recorder
       Fixture.ordinal_at_base []
     = (true, []).
Proof.
  assert (Ho : occurs_in "Ordinal"
                 (buffered (decoratedName Fixture.ordinal_at_base))).
  { exists "", "1". vm_compute. reflexivity. }
  assert (Ha : duint_add x64 4194304 (info_addr Fixture.ordinal_at_base)
               = 4194304) by reflexivity.
  split; [exact Ho|]. split; [exact Ha|].
  exact (proj1 (SymEnum_lambda_ordinal x64 (list SYMBOLINFO) 4194304 recorder
                  Fixture.ordinal_at_base [])
           (conj Ho Ha)).
Defined.

(** ** More about the module list *)

(** X5.  [SymGetModuleList] returns exactly when the name of every module
    with its extension fits the name field of an entry; otherwise the call
    ends in the invalid-parameter handler.  When it returns it answers true
    and the list holds what it held before, followed by one entry per
    module in the order of the directory: the list is not emptied first, so
    two calls in a row on the same list leave every module in it twice. *)
Theorem SymGetModuleList_appends :
  forall modules List,
    (names_fit modules <->
     exists r, SymGetModuleList modules List = Done r)
    /\ (forall r, SymGetModuleList modules List = Done r ->
                  r = (true, List ++ map snapshot_entry modules))
    /\ (forall f, SymGetModuleList modules List = Crash f ->
                  f = InvalidParameter /\ ~ names_fit modules)
    /\ (names_fit modules ->
        (r <- SymGetModuleList modules List ;;
         SymGetModuleList modules (snd r))
        = Done (true, List ++ map snapshot_entry modules
                           ++ map snapshot_entry modules)).
Proof.
  intros modules List. unfold SymGetModuleList, ModEnum.
  split; [|split; [|split]].
  - destruct (ModEnum_from_outcome modules List) as [[Hf Hr]|[Hf Hr]];
      rewrite Hr; cbn [bind].
    + split; [eauto | intros _; exact Hf].
    + split; [contradiction | intros [r H]; discriminate].
  - intros r.
    destruct (ModEnum_from_outcome modules List) as [[Hf Hr]|[Hf Hr]];
      rewrite Hr; cbn [bind]; [|discriminate].
    intros H. now inversion H.
  - intros f.
    destruct (ModEnum_from_outcome modules List) as [[Hf Hr]|[Hf Hr]];
      rewrite Hr; cbn [bind]; [discriminate|].
    intros H. inversion H. now split.
  - intros Hf. rewrite (ModEnum_from_fits modules List Hf). cbn [bind snd].
    rewrite (ModEnum_from_fits modules _ Hf). cbn [bind].
    now rewrite <- app_assoc.
Qed.

Lemma SymGetModuleList_appends_witness :
  names_fit [Fixture.lib]
  /\ (r <- SymGetModuleList [Fixture.lib] [] ;;
      SymGetModuleList [Fixture.lib] (snd r))
     = Done (true, [snapshot_entry Fixture.lib; snapshot_entry Fixture.lib]).
Proof.
  assert (H : names_fit [Fixture.lib]).
  { unfold names_fit, MAX_MODULE_SIZE. repeat constructor; simpl; lia. }
  split; [exact H|].
  exact (proj2 (proj2 (proj2 (SymGetModuleList_appends [Fixture.lib] []))) H).
Defined.

(** X6.  Whenever [SymUpdateModuleList] publishes, the array is not null,
    has one entry per module with the bases of the directory in order,
    and every name in it is shorter than [MAX_MODULE_SIZE]; with fewer than
    [2^31] modules the published count is the number of entries. *)
Theorem SymUpdateModuleList_snapshot :
  forall modules g,
    SymUpdateModuleList modules = Done g ->
    exists data,
      gui_modules g = Some data
      /\ List.length data = List.length modules
      /\ map module_base data = map base modules
      /\ Forall (fun x => (String.length (module_name x) < MAX_MODULE_SIZE)%nat)
                data
      /\ (Z.of_nat (List.length modules) < 2 ^ 31 ->
          gui_count g = Z.of_nat (List.length data)).
Proof.
  intros modules g H. unfold SymUpdateModuleList in H.
  destruct (SymGetModuleList modules []) as [r|f] eqn:E; [|discriminate].
  assert (Hfit : names_fit modules).
  { unfold SymGetModuleList, ModEnum in E.
    destruct (ModEnum_from_outcome modules []) as [[Hf _]|[_ Hr]];
      [exact Hf | rewrite Hr in E; discriminate]. }
  apply SymGetModuleList_Done in E. subst r. cbn in H. inversion H. subst g.
  cbn [gui_modules gui_count].
  exists (map snapshot_entry modules). split; [reflexivity|].
  split; [apply length_map|]. split; [|split].
  - rewrite map_map. reflexivity.
  - apply Forall_forall. intros x Hx. apply in_map_iff in Hx.
    destruct Hx as [m [Hx Hm]]. subst x.
    unfold names_fit in Hfit. rewrite Forall_forall in Hfit.
    specialize (Hfit m Hm). cbn [snapshot_entry module_name].
    rewrite string_app_length. exact Hfit.
  - intros Hsmall. rewrite length_map. unfold int_cast.
    rewrite Z.mod_small; lia.
Qed.

Lemma SymUpdateModuleList_snapshot_witness :
  SymUpdateModuleList [Fixture.app 0 None; Fixture.lib]
  = Done {| gui_count := 2;
            gui_modules :=
              Some [{| module_base := 4194304; module_name := "app.exe" |};
                    {| module_base := 268435456; module_name := "lib.dll" |}] |}
  /\ exists data,
       Some [{| module_base := 4194304; module_name := "app.exe" |};
             {| module_base := 268435456; module_name := "lib.dll" |}]
       = Some data
       /\ List.length data = 2%nat.
Proof.
  assert (H : SymUpdateModuleList [Fixture.app 0 None; Fixture.lib]
              = Done {| gui_count := 2;
                        gui_modules :=
                          Some [{| module_base := 4194304;
                                   module_name := "app.exe" |};
                                {| module_base := 268435456;
                                   module_name := "lib.dll" |}] |}).
  { vm_compute. reflexivity. }
  split; [exact H|].
  destruct (SymUpdateModuleList_snapshot _ _ H) as [data [Hd [Hl _]]].
  exists data. split; [exact Hd | exact Hl].
Defined.

(** ** More about the synchronization *)

Section RoundFacts.

Variable double : EngineDouble.

Lemma went_through_continue : forall module cur_path rest round e ek e',
  is_round module cur_path round ->
  calls ek = calls e ++ round ->
  went_through module rest ek e' ->
  went_through module (cur_path :: rest) e e'.
Proof.
  intros module cur_path rest round e ek e' Hr Hk
         (tried & untried & rounds & Hp & HF & Hc & _).
  exists (cur_path :: tried), untried, (round :: rounds).
  split; [simpl; now rewrite Hp|]. split; [now constructor|].
  split; [|discriminate].
  rewrite Hc, Hk. simpl. now rewrite app_assoc.
Qed.

Lemma went_through_stop : forall module cur_path rest round e e',
  is_round module cur_path round ->
  calls e' = calls e ++ round ->
  went_through module (cur_path :: rest) e e'.
Proof.
  intros module cur_path rest round e e' Hr Hk.
  exists [cur_path], rest, [round].
  split; [reflexivity|]. split; [repeat constructor; exact Hr|].
  split; [|discriminate].
  rewrite Hk. simpl. now rewrite app_nil_r.
Qed.

Ltac round_of n image :=
  exists image, n; split; [lia | reflexivity].

Ltac calls_of_round :=
  cbn [calls firstn round_pattern]; rewrite <- ?app_assoc; reflexivity.

(** The calls of the inner loop are rounds, one per candidate path tried. *)
Lemma SymDownloadAllSymbols_paths_rounds : forall module paths e,
  went_through module paths e (SymDownloadAllSymbols_paths double module paths e).
Proof.
  intros module paths.
  induction paths as [|cur_path rest IH]; intros e.
  - exists [], [], []. repeat split; auto.
    simpl. now rewrite app_nil_r.
  - cbn [SymDownloadAllSymbols_paths].
    unfold SafeSymSetSearchPathW.
    destruct (succeeds double (calls e) (CSymSetSearchPathW cur_path));
      cbn [negb].
    2:{ eapply (went_through_continue module cur_path rest
                  (firstn 1 (round_pattern module cur_path "")));
          [round_of 1%nat "" | | apply IH]. calls_of_round. }
    unfold GetModuleFileNameExW, received. cbn [calls SymOptions SearchPath].
    destruct (succeeds double (calls e ++ [CSymSetSearchPathW cur_path])
                (CGetModuleFileNameExW (module_base module))).
    2:{ eapply (went_through_continue module cur_path rest
                  (firstn 2 (round_pattern module cur_path "")));
          [round_of 2%nat "" | | apply IH]. calls_of_round. }
    set (image := module_file_name double
                    (calls e ++ [CSymSetSearchPathW cur_path])
                    (module_base module)).
    unfold SafeSymUnloadModule64, received. cbn [calls SymOptions SearchPath].
    destruct (succeeds double _ (CSymUnloadModule64 (module_base module)));
      cbn [negb].
    2:{ eapply (went_through_continue module cur_path rest
                  (firstn 3 (round_pattern module cur_path image)));
          [round_of 3%nat image | | apply IH]. calls_of_round. }
    unfold SafeSymLoadModuleExW, received. cbn [calls SymOptions SearchPath].
    destruct (succeeds double _ (CSymLoadModuleExW image (module_base module)));
      cbn [negb].
    2:{ eapply (went_through_continue module cur_path rest
                  (firstn 4 (round_pattern module cur_path image)));
          [round_of 4%nat image | | apply IH]. calls_of_round. }
    unfold SafeSymGetModuleInfoW64, received.
    cbn [calls SymOptions SearchPath].
    destruct (succeeds double _ (CSymGetModuleInfoW64 (module_base module))).
    2:{ eapply (went_through_continue module cur_path rest
                  (firstn 5 (round_pattern module cur_path image)));
          [round_of 5%nat image | | apply IH]. calls_of_round. }
    destruct (symbol_type double _ (module_base module));
      first [ eapply (went_through_stop module cur_path rest
                        (firstn 5 (round_pattern module cur_path image)));
              [round_of 5%nat image | calls_of_round]
            | eapply (went_through_continue module cur_path rest
                        (firstn 5 (round_pattern module cur_path image)));
              [round_of 5%nat image | | apply IH]; calls_of_round ].
Qed.

End RoundFacts.

Section RunFacts.

Variable double : EngineDouble.

Lemma is_round_begins : forall module path round,
  is_round module path round ->
  exists later, round = CSymSetSearchPathW path :: later.
Proof.
  intros module path round (image & n & Hn & Hr).
  destruct n as [|n]; [lia|]. subst round. cbn [firstn round_pattern]. eauto.
Qed.

Lemma is_round_length : forall module path round,
  is_round module path round -> (List.length round <= 5)%nat.
Proof.
  intros module path round (image & n & Hn & Hr). subst round.
  rewrite length_firstn. simpl. lia.
Qed.

Lemma is_round_calls : forall modList paths module path round c,
  In module modList -> In path paths ->
  is_round module path round -> In c round ->
  round_call modList paths c = true.
Proof.
  intros modList paths module path round c Hm Hp (image & n & Hn & Hr) Hc.
  subst round.
  assert (Hin : In c (round_pattern module path image)).
  { revert Hc. generalize (round_pattern module path image).
    clear. induction n as [|n IH]; intros l H; [contradiction|].
    destruct l as [|x l]; [contradiction|].
    simpl in H. destruct H as [H|H]; [now left | right; now apply IH]. }
  assert (Hbase : existsb (fun module0 => module_base module0 =? module_base module)
                    modList = true).
  { apply existsb_exists. exists module. split; [exact Hm | apply Z.eqb_refl]. }
  simpl in Hin.
  destruct Hin as [H|[H|[H|[H|[H|[]]]]]]; subst c; cbn [round_call];
    try exact Hbase.
  apply existsb_exists. exists path. split; [exact Hp | apply String.eqb_refl].
Qed.

Lemma went_through_block : forall module paths e e',
  went_through module paths e e' ->
  exists block, module_block paths module block /\ calls e' = calls e ++ block.
Proof.
  intros module paths e e' (tried & untried & rounds & Hp & HF & Hc & Hne).
  exists (List.concat rounds). split; [|exact Hc].
  exists tried, untried, rounds. repeat split; auto.
  intros first others Hfirst.
  assert (Ht : tried <> []) by (apply Hne; rewrite Hfirst; discriminate).
  destruct HF as [|path round tried' rounds' Hr HF]; [congruence|].
  rewrite Hfirst in Hp. simpl in Hp. inversion Hp. subst path.
  destruct (is_round_begins _ _ _ Hr) as [later Hl].
  exists (later ++ List.concat rounds'). simpl. now rewrite Hl.
Qed.

(** The calls of the outer loop: one block per module, in order. *)
Lemma SymDownloadAllSymbols_modules_blocks : forall modList paths e,
  exists blocks,
    Forall2 (module_block paths) modList blocks
    /\ calls (SymDownloadAllSymbols_modules double modList paths e)
       = calls e ++ List.concat blocks.
Proof.
  intros modList paths. unfold SymDownloadAllSymbols_modules.
  induction modList as [|module rest IH]; intros e; cbn [fold_left].
  - exists []. split; [constructor|]. simpl. now rewrite app_nil_r.
  - destruct (went_through_block module paths e _
                (SymDownloadAllSymbols_paths_rounds double module paths e))
      as [block [Hb Hc]].
    destruct (IH (SymDownloadAllSymbols_paths double module paths e))
      as [blocks [HF Hcs]].
    exists (block :: blocks). split; [now constructor|].
    rewrite Hcs, Hc. simpl. now rewrite app_assoc.
Qed.

Lemma module_block_length : forall paths module block,
  module_block paths module block ->
  (List.length block <= 5 * List.length paths)%nat.
Proof.
  intros paths module block (tried & untried & rounds & Hp & HF & Hb & _).
  subst block paths. rewrite length_app.
  assert (H : (List.length (List.concat rounds) <= 5 * List.length tried)%nat).
  { induction HF as [|path round tried' rounds' Hr HF IH]; [simpl; lia|].
    simpl List.concat. rewrite length_app.
    pose proof (is_round_length _ _ _ Hr). simpl List.length. lia. }
  lia.
Qed.

Lemma module_block_calls : forall modList paths module block c,
  In module modList ->
  module_block paths module block -> In c block ->
  round_call modList paths c = true.
Proof.
  intros modList paths module block c Hm
         (tried & untried & rounds & Hp & HF & Hb & _) Hc.
  subst block.
  assert (Hsub : forall path, In path tried -> In path paths).
  { intros path H. rewrite Hp. apply in_or_app. now left. }
  clear Hp. induction HF as [|path round tried' rounds' Hr HF IH];
    [contradiction|].
  simpl in Hc. apply in_app_or in Hc. destruct Hc as [Hc|Hc].
  - apply (is_round_calls modList paths module path round c Hm); auto.
    apply Hsub. now left.
  - apply IH; auto. intros p Hp. apply Hsub. now right.
Qed.

(** The calls of a whole run that gets past the read of the search path. *)
Lemma SymDownloadAllSymbols_log :
  forall modules szSymbolCachePath SymbolStore e e',
    modules <> [] ->
    succeeds double (calls e) CSymGetSearchPathW = true ->
    SymDownloadAllSymbols modules double szSymbolCachePath SymbolStore e
    = Done e' ->
    exists customSearchPath blocks oldSearchPath,
      customSearchPath
      = ("SRV*" ++ szSymbolCachePath ++ "*"
         ++ match SymbolStore with
            | None => "https://msdl.microsoft.com/download/symbols"
            | Some store => store
            end)%string
      /\ Forall2 (module_block (search_paths customSearchPath))
                 (map snapshot_entry modules) blocks
      /\ held_by_buffer MAX_PATH (SearchPath e) oldSearchPath
      /\ calls e'
         = calls e
           ++ [CSymGetSearchPathW; CSymGetOptions;
               CSymSetOptions (relaxed_options (SymOptions e))]
           ++ List.concat blocks
           ++ [CSymSetOptions (SymOptions e);
               CSymSetSearchPathW oldSearchPath].
Proof.
  intros modules cache SymbolStore e e' Hne Hread Hrun.
  unfold SymDownloadAllSymbols in Hrun.
  destruct (SymGetModuleList modules []) as [r|f] eqn:E; [|discriminate].
  apply SymGetModuleList_Done in E. subst r. cbn [bind negb app] in Hrun.
  destruct modules as [|m ms]; [congruence|]. cbn [map] in Hrun.
  unfold SafeSymGetSearchPathW in Hrun. rewrite Hread in Hrun.
  pose proof (take_held_by_buffer MAX_PATH (SearchPath e)) as Hheld.
  remember (CRT.take (MAX_PATH - 1) (SearchPath e)) as oldSearchPath.
  clear HeqoldSearchPath.
  unfold CRT.sprintf_s in Hrun.
  destruct (String.length _ <? MAX_PATH * 2)%nat; [|discriminate].
  cbn [bind] in Hrun. unfold SafeSymGetOptions in Hrun.
  fold (relaxed_options (SymOptions (received CSymGetSearchPathW e))) in Hrun.
  match type of Hrun with
  | context [SymDownloadAllSymbols_modules double ?l ?p ?e3] =>
      destruct (SymDownloadAllSymbols_modules_blocks l p e3) as [blocks [HF Hc]];
      remember (SymDownloadAllSymbols_modules double l p e3) as e4
  end.
  unfold SafeSymSetSearchPathW, SafeSymSetOptions in Hrun.
  cbn [calls SymOptions SearchPath received] in Hrun.
  inversion Hrun as [He']. clear Hrun.
  eexists. exists blocks, oldSearchPath.
  split; [reflexivity|]. split; [exact HF|]. split; [exact Hheld|].
  cbn [calls]. rewrite Hc. unfold SafeSymSetOptions, received.
  cbn [calls SymOptions SearchPath]. rewrite <- !app_assoc. reflexivity.
Qed.

End RunFacts.

Section StatusFacts.

Variable double : EngineDouble.

(** A round whose five calls succeed ends the loop when the engine reports
    a debug database, and is followed by the next candidate otherwise. *)
Lemma SymDownloadAllSymbols_full_round : forall module cur_path rest e,
  round_succeeds double module cur_path e ->
  SymDownloadAllSymbols_paths double module (cur_path :: rest) e
  = match round_symbol_type double module cur_path e with
    | SymPdb => after_full_round double module cur_path e
    | _ => SymDownloadAllSymbols_paths double module rest
             (after_full_round double module cur_path e)
    end.
Proof.
  intros module cur_path rest e H.
  unfold round_succeeds in H.
  pose proof (H 0%nat ltac:(lia)) as H0.
  pose proof (H 1%nat ltac:(lia)) as H1.
  pose proof (H 2%nat ltac:(lia)) as H2.
  pose proof (H 3%nat ltac:(lia)) as H3.
  pose proof (H 4%nat ltac:(lia)) as H4.
  clear H. cbn [firstn nth round_pattern] in H0, H1, H2, H3, H4.
  rewrite app_nil_r in H0.
  unfold round_symbol_type, after_full_round.
  cbn [firstn round_pattern].
  set (image := module_file_name double
                  (calls e ++ [CSymSetSearchPathW cur_path])
                  (module_base module)) in *.
  cbn [SymDownloadAllSymbols_paths].
  unfold SafeSymSetSearchPathW. rewrite H0. cbn [negb].
  unfold GetModuleFileNameExW, received. cbn [calls SymOptions SearchPath].
  rewrite H1. fold image.
  unfold SafeSymUnloadModule64, received. cbn [calls SymOptions SearchPath].
  rewrite <- !app_assoc. cbn [app]. rewrite H2. cbn [negb].
  unfold SafeSymLoadModuleExW, received. cbn [calls SymOptions SearchPath].
  rewrite <- !app_assoc. cbn [app]. rewrite H3. cbn [negb].
  unfold SafeSymGetModuleInfoW64, received. cbn [calls SymOptions SearchPath].
  rewrite <- !app_assoc. cbn [app]. rewrite H4.
  destruct (symbol_type double _ (module_base module)); reflexivity.
Qed.

Hypothesis always_succeeds : forall history c, succeeds double history c = true.




End StatusFacts.


Lemma blocks_length : forall paths modList blocks,
  Forall2 (module_block paths) modList blocks ->
  (List.length (List.concat blocks)
   <= 5 * List.length paths * List.length modList)%nat.
Proof.
  intros paths modList blocks HF.
  induction HF as [|module block modList' blocks' Hb HF IH]; [simpl; lia|].
  simpl List.concat. rewrite length_app.
  pose proof (module_block_length _ _ _ Hb). simpl List.length. nia.
Qed.

Lemma blocks_calls : forall paths full modList blocks c,
  (forall module, In module modList -> In module full) ->
  Forall2 (module_block paths) modList blocks ->
  In c (List.concat blocks) ->
  round_call full paths c = true.
Proof.
  intros paths full modList blocks c Hsub HF.
  induction HF as [|module block modList' blocks' Hb HF IH]; intros Hc;
    [contradiction|].
  simpl in Hc. apply in_app_or in Hc. destruct Hc as [Hc|Hc].
  - apply (module_block_calls full paths module block c); auto.
    apply Hsub. now left.
  - apply IH; auto. intros m Hm. apply Hsub. now right.
Qed.

Section BlockFacts.

Variable double : EngineDouble.

(** The calls the inner loop makes are the block the double predicts. *)
Lemma SymDownloadAllSymbols_paths_block : forall module paths e,
  calls (SymDownloadAllSymbols_paths double module paths e)
  = calls e ++ block_of double module (calls e) paths.
Proof.
  intros module paths.
  induction paths as [|cur_path rest IH]; intros e.
  - simpl. now rewrite app_nil_r.
  - cbn [SymDownloadAllSymbols_paths block_of].
    unfold round_loaded, round_of, round_image.
    cbn [round_pattern cut_at_failure all_succeed firstn].
    unfold SafeSymSetSearchPathW.
    destruct (succeeds double (calls e) (CSymSetSearchPathW cur_path));
      cbn [negb andb].
    2:{ rewrite IH. cbn [calls]. rewrite <- !app_assoc. reflexivity. }
    unfold GetModuleFileNameExW, received. cbn [calls SymOptions SearchPath].
    destruct (succeeds double (calls e ++ [CSymSetSearchPathW cur_path])
                (CGetModuleFileNameExW (module_base module)));
      cbn [negb andb].
    2:{ rewrite IH. cbn [calls]. rewrite <- !app_assoc. reflexivity. }
    unfold SafeSymUnloadModule64, received. cbn [calls SymOptions SearchPath].
    destruct (succeeds double _ (CSymUnloadModule64 (module_base module)));
      cbn [negb andb].
    2:{ rewrite IH. cbn [calls]. rewrite <- !app_assoc. reflexivity. }
    unfold SafeSymLoadModuleExW, received. cbn [calls SymOptions SearchPath].
    destruct (succeeds double _ (CSymLoadModuleExW _ (module_base module)));
      cbn [negb andb].
    2:{ rewrite IH. cbn [calls]. rewrite <- !app_assoc. reflexivity. }
    unfold SafeSymGetModuleInfoW64, received.
    cbn [calls SymOptions SearchPath].
    destruct (succeeds double _ (CSymGetModuleInfoW64 (module_base module)));
      cbn [negb andb].
    2:{ rewrite IH. cbn [calls]. rewrite <- !app_assoc. reflexivity. }
    rewrite <- !app_assoc. cbn [app].
    destruct (symbol_type double _ (module_base module));
      try (rewrite IH); cbn [calls]; rewrite <- ?app_assoc; reflexivity.
Qed.

(** The calls the outer loop makes are the blocks of the modules. *)
Lemma SymDownloadAllSymbols_modules_blocks_of : forall modList paths e,
  calls (SymDownloadAllSymbols_modules double modList paths e)
  = calls e ++ List.concat (blocks_of double paths (calls e) modList).
Proof.
  intros modList paths. unfold SymDownloadAllSymbols_modules.
  induction modList as [|module rest IH]; intros e; cbn [fold_left blocks_of].
  - simpl. now rewrite app_nil_r.
  - rewrite IH, SymDownloadAllSymbols_paths_block.
    cbn [List.concat]. now rewrite app_assoc.
Qed.

Lemma block_of_begins : forall module history first others,
  exists later,
    block_of double module history (first :: others)
    = CSymSetSearchPathW first :: later.
Proof.
  intros module history first others. cbn [block_of].
  unfold round_of. cbn [round_pattern cut_at_failure].
  destruct (succeeds double history (CSymSetSearchPathW first));
    destruct (round_loaded double module first history);
    cbn [app]; eauto.
Qed.

Lemma blocks_of_begin : forall first others modList history,
  List.length (blocks_of double (first :: others) history modList)
  = List.length modList
  /\ Forall (fun block => exists later,
                 block = CSymSetSearchPathW first :: later)
            (blocks_of double (first :: others) history modList).
Proof.
  intros first others modList.
  induction modList as [|module rest IH]; intros history.
  - split; [reflexivity | constructor].
  - cbn [blocks_of].
    destruct (IH (history
                  ++ block_of double module history (first :: others)))
      as [Hl Hf].
    split; [cbn [List.length]; f_equal; exact Hl|].
    constructor; [apply block_of_begins | exact Hf].
Qed.

End BlockFacts.

(** X7.  Take a run of [SymDownloadAllSymbols] that returns, with a module
    list that is not empty and a successful read of the search path.  The
    calls the engine received are: the read of the search path, the read of
    the option flags, the call that relaxes them; then one block of calls
    per module, in the order of the directory; then the call that restores
    the option flags and the call that sets the search path to what the
    [MAX_PATH] buffer held of its initial value.  The block of a module is
    made of rounds, one per candidate path in order, up to and including
    the first round whose five calls succeed and end with a report of a
    debug database; a round is the pattern (set the path, find the image,
    unload, load the image found, ask for the module information) cut
    after the first call that fails.  Every block begins with the call
    that sets the first, empty, candidate path: whatever happened to the
    modules before it, each module gets its attempt. *)
Theorem SymDownloadAllSymbols_rounds :
  forall modules double szSymbolCachePath SymbolStore e e',
    modules <> [] ->
    succeeds double (calls e) CSymGetSearchPathW = true ->
    SymDownloadAllSymbols modules double szSymbolCachePath SymbolStore e
    = Done e' ->
    exists customSearchPath blocks oldSearchPath,
      customSearchPath
      = ("SRV*" ++ szSymbolCachePath ++ "*"
         ++ match SymbolStore with
            | None => "https://msdl.microsoft.com/download/symbols"
            | Some store => store
            end)%string
      /\ held_by_buffer MAX_PATH (SearchPath e) oldSearchPath
      /\ blocks
         = blocks_of double [""; customSearchPath]
             (calls e
              ++ [CSymGetSearchPathW; CSymGetOptions;
                  CSymSetOptions (relaxed_options (SymOptions e))])
             (map snapshot_entry modules)
      /\ calls e'
         = calls e
           ++ [CSymGetSearchPathW; CSymGetOptions;
               CSymSetOptions (relaxed_options (SymOptions e))]
           ++ List.concat blocks
           ++ [CSymSetOptions (SymOptions e);
               CSymSetSearchPathW oldSearchPath]
      /\ List.length blocks = List.length modules
      /\ Forall (fun block => exists later,
                     block = CSymSetSearchPathW "" :: later) blocks.
Proof.
  intros modules double cache SymbolStore e e' Hne Hread Hrun.
  unfold SymDownloadAllSymbols in Hrun.
  destruct (SymGetModuleList modules []) as [r|f] eqn:E; [|discriminate].
  apply SymGetModuleList_Done in E. subst r. cbn [bind negb app] in Hrun.
  destruct modules as [|m ms]; [congruence|]. cbn [map] in Hrun.
  rename Hrun into Hrun'.
  unfold SafeSymGetSearchPathW in Hrun'. rewrite Hread in Hrun'.
  pose proof (take_held_by_buffer MAX_PATH (SearchPath e)) as Hheld.
  remember (CRT.take (MAX_PATH - 1) (SearchPath e)) as oldSearchPath.
  clear HeqoldSearchPath.
  unfold CRT.sprintf_s in Hrun'.
  destruct (String.length _ <? MAX_PATH * 2)%nat; [|discriminate].
  cbn [bind] in Hrun'. unfold SafeSymGetOptions in Hrun'.
  fold (relaxed_options (SymOptions (received CSymGetSearchPathW e))) in Hrun'.
  match type of Hrun' with
  | context [SymDownloadAllSymbols_modules double ?l ?p ?e3] =>
      pose proof (SymDownloadAllSymbols_modules_blocks_of double l p e3) as Hc;
      remember (SymDownloadAllSymbols_modules double l p e3) as e4
  end.
  unfold SafeSymSetSearchPathW, SafeSymSetOptions in Hrun'.
  cbn [calls SymOptions SearchPath received] in Hrun'.
  inversion Hrun' as [He']. clear Hrun'.
  unfold SafeSymSetOptions, received, search_paths in Hc.
  cbn [calls SymOptions SearchPath] in Hc.
  rewrite <- !app_assoc in Hc. cbn [app] in Hc.
  eexists. eexists. exists oldSearchPath.
  split; [reflexivity|]. split; [exact Hheld|]. split; [reflexivity|].
  split.
  - cbn [calls map]. rewrite Hc. rewrite <- !app_assoc. reflexivity.
  - destruct (blocks_of_begin double "" 
                [("SRV*" ++ cache ++ "*"
                  ++ match SymbolStore with
                     | None => "https://msdl.microsoft.com/download/symbols"
                     | Some store => store
                     end)%string]
                (map snapshot_entry (m :: ms))
                (calls e
                 ++ [CSymGetSearchPathW; CSymGetOptions;
                     CSymSetOptions (relaxed_options (SymOptions e))]))
      as [Hl Hb].
    rewrite length_map in Hl. split; [exact Hl | exact Hb].
Qed.

Lemma SymDownloadAllSymbols_rounds_witness :
  [Fixture.app 0 None; Fixture.lib] <> []
  /\ succeeds Fixture.pathless (calls Fixture.engine0) CSymGetSearchPathW = true
  /\ SymDownloadAllSymbols [Fixture.app 0 None; Fixture.lib] Fixture.pathless
       "C:\cache" (Some "store") Fixture.engine0
     = Done Fixture.engine_after_pathless
  /\ calls Fixture.engine_after_pathless
     = calls Fixture.engine0
       ++ [CSymGetSearchPathW; CSymGetOptions;
           CSymSetOptions (relaxed_options (SymOptions Fixture.engine0))]
       ++ List.concat
            [[CSymSetSearchPathW ""; CGetModuleFileNameExW 4194304;
              CSymSetSearchPathW "SRV*C:\cache*store";
              CGetModuleFileNameExW 4194304];
             [CSymSetSearchPathW ""; CGetModuleFileNameExW 268435456;
              CSymSetSearchPathW "SRV*C:\cache*store";
              CGetModuleFileNameExW 268435456]]
       ++ [CSymSetOptions (SymOptions Fixture.engine0);
           CSymSetSearchPathW "C:\symbols"].
Proof.
  assert (Hne : [Fixture.app 0 None; Fixture.lib] <> []) by discriminate.
  assert (Hread : succeeds Fixture.pathless (calls Fixture.engine0)
                    CSymGetSearchPathW = true) by reflexivity.
  assert (Hrun : SymDownloadAllSymbols [Fixture.app 0 None; Fixture.lib]
                   Fixture.pathless "C:\cache" (Some "store") Fixture.engine0
                 = Done Fixture.engine_after_pathless)
    by (vm_compute; reflexivity).
  split; [exact Hne|]. split; [exact Hread|]. split; [exact Hrun|].
  destruct (SymDownloadAllSymbols_rounds _ _ _ _ _ _ Hne Hread Hrun)
    as (custom & blocks & old & Hcustom & Hheld & Hb & Hc & _).
  assert (Hold : old = "C:\symbols").
  { apply (held_by_buffer_fits MAX_PATH (SearchPath Fixture.engine0) old Hheld).
    apply Nat.ltb_lt. vm_compute. reflexivity. }
  rewrite Hc, Hb, Hcustom, Hold. vm_compute. reflexivity.
Defined.

(** X8.  A run of [SymDownloadAllSymbols] that returns has made at most
    five calls plus ten per module: two rounds of five calls for each. *)
Theorem SymDownloadAllSymbols_call_bound :
  forall modules double szSymbolCachePath SymbolStore e e',
    SymDownloadAllSymbols modules double szSymbolCachePath SymbolStore e
    = Done e' ->
    (List.length (calls e')
     <= List.length (calls e) + 5 + 10 * List.length modules)%nat.
Proof.
  intros modules double cache SymbolStore e e' Hrun.
  destruct modules as [|m ms].
  - cbn in Hrun. inversion Hrun. lia.
  - destruct (succeeds double (calls e) CSymGetSearchPathW) eqn:Hread.
    + destruct (SymDownloadAllSymbols_log double (m :: ms) cache SymbolStore
                  e e' ltac:(discriminate) Hread Hrun)
        as (custom & blocks & old & _ & HF & _ & Hc).
      rewrite Hc. rewrite !length_app.
      pose proof (blocks_length _ _ _ HF) as Hb.
      rewrite length_map in Hb. unfold search_paths in Hb.
      cbn [List.length] in *. lia.
    + unfold SymDownloadAllSymbols in Hrun.
      destruct (SymGetModuleList (m :: ms) []) as [r|f] eqn:E; [|discriminate].
      apply SymGetModuleList_Done in E. subst r.
      cbn [bind negb app map] in Hrun.
      unfold SafeSymGetSearchPathW in Hrun. rewrite Hread in Hrun.
      inversion Hrun. unfold received. cbn [calls].
      rewrite length_app. cbn [List.length]. lia.
Qed.

Lemma SymDownloadAllSymbols_call_bound_witness :
  SymDownloadAllSymbols [Fixture.app 0 None; Fixture.lib] Fixture.pathless
    "C:\cache" (Some "store") Fixture.engine0
  = Done Fixture.engine_after_pathless
  /\ (List.length (calls Fixture.engine_after_pathless) <= 0 + 5 + 10 * 2)%nat.
Proof.
  assert (Hrun : SymDownloadAllSymbols [Fixture.app 0 None; Fixture.lib]
                   Fixture.pathless "C:\cache" (Some "store") Fixture.engine0
                 = Done Fixture.engine_after_pathless)
    by (vm_compute; reflexivity).
  split; [exact Hrun|].
  exact (SymDownloadAllSymbols_call_bound _ _ _ _ _ _ Hrun).
Defined.

(** X9.  In a run that returns, with a module list that is not empty and a
    successful read of the search path, every call the engine receives is
    one of the five framing calls or a call of a round for a module of the
    directory under one of the two candidate paths.  So the name lookup is
    never called, the search path is only ever set to the empty path, to
    the custom path or to what the [MAX_PATH] buffer held of its initial
    value, and symbols are unloaded and loaded for bases of the directory
    only. *)
Theorem SymDownloadAllSymbols_calls_allowed :
  forall modules double szSymbolCachePath SymbolStore e e',
    modules <> [] ->
    succeeds double (calls e) CSymGetSearchPathW = true ->
    SymDownloadAllSymbols modules double szSymbolCachePath SymbolStore e
    = Done e' ->
    let customSearchPath :=
      ("SRV*" ++ szSymbolCachePath ++ "*"
       ++ match SymbolStore with
          | None => "https://msdl.microsoft.com/download/symbols"
          | Some store => store
          end)%string in
    exists added oldSearchPath,
      calls e' = calls e ++ added
      /\ held_by_buffer MAX_PATH (SearchPath e) oldSearchPath
      /\ ((String.length (SearchPath e) < MAX_PATH)%nat ->
          oldSearchPath = SearchPath e)
      /\ (forall c, In c added ->
            In c [CSymGetSearchPathW; CSymGetOptions;
                  CSymSetOptions (relaxed_options (SymOptions e));
                  CSymSetOptions (SymOptions e);
                  CSymSetSearchPathW oldSearchPath]
            \/ round_call (map snapshot_entry modules)
                 [""; customSearchPath] c = true)
      /\ (forall Name, ~ In (CSymFromName Name) added)
      /\ (forall path, In (CSymSetSearchPathW path) added ->
            path = "" \/ path = customSearchPath \/ path = oldSearchPath)
      /\ (forall image b, In (CSymLoadModuleExW image b) added ->
            In b (map base modules))
      /\ (forall b, In (CSymUnloadModule64 b) added -> In b (map base modules)).
Proof.
  intros modules double cache SymbolStore e e' Hne Hread Hrun custom.
  destruct (SymDownloadAllSymbols_log double modules cache SymbolStore e e'
              Hne Hread Hrun)
    as (custom' & blocks & old & Hcustom & HF & Hheld & Hc).
  fold custom in Hcustom. subst custom'. unfold search_paths in HF.
  assert (Hall : forall c,
             In c ([CSymGetSearchPathW; CSymGetOptions;
                    CSymSetOptions (relaxed_options (SymOptions e))]
                   ++ List.concat blocks
                   ++ [CSymSetOptions (SymOptions e);
                       CSymSetSearchPathW old]) ->
             In c [CSymGetSearchPathW; CSymGetOptions;
                   CSymSetOptions (relaxed_options (SymOptions e));
                   CSymSetOptions (SymOptions e);
                   CSymSetSearchPathW old]
             \/ round_call (map snapshot_entry modules) [""; custom] c = true).
  { intros c Hin. apply in_app_or in Hin. destruct Hin as [Hin|Hin].
    - left. simpl in Hin. simpl. tauto.
    - apply in_app_or in Hin. destruct Hin as [Hin|Hin].
      + right. apply (blocks_calls _ _ _ _ c (fun m H => H) HF Hin).
      + left. simpl in Hin. simpl. tauto. }
  assert (Hbase : forall b,
             existsb (fun module => module_base module =? b)
               (map snapshot_entry modules) = true ->
             In b (map base modules)).
  { intros b H. apply existsb_exists in H. destruct H as [x [Hx Hb]].
    apply in_map_iff in Hx. destruct Hx as [m [Hx Hm]]. subst x.
    apply Z.eqb_eq in Hb. cbn [snapshot_entry module_base] in Hb. subst b.
    now apply in_map. }
  eexists. exists old. split; [exact Hc|]. split; [exact Hheld|].
  split; [intros H; exact (held_by_buffer_fits _ _ _ Hheld H)|].
  split; [exact Hall|].
  split; [|split; [|split]].
  - intros Name Hin. destruct (Hall _ Hin) as [H|H].
    + simpl in H. repeat (destruct H as [H|H]; [discriminate|]). contradiction.
    + discriminate.
  - intros path Hin. destruct (Hall _ Hin) as [H|H].
    + simpl in H.
      repeat (destruct H as [H|H]; [try discriminate; inversion H; auto|]).
      contradiction.
    + cbn [round_call existsb] in H.
      destruct (String.eqb_spec path "") as [E|E]; [now left|].
      destruct (String.eqb_spec path custom) as [E'|E'];
        [right; now left | discriminate].
  - intros image b Hin. destruct (Hall _ Hin) as [H|H].
    + simpl in H. repeat (destruct H as [H|H]; [discriminate|]). contradiction.
    + now apply Hbase.
  - intros b Hin. destruct (Hall _ Hin) as [H|H].
    + simpl in H. repeat (destruct H as [H|H]; [discriminate|]). contradiction.
    + now apply Hbase.
Qed.

Lemma SymDownloadAllSymbols_calls_allowed_witness :
  [Fixture.app 0 None] <> []
  /\ succeeds Fixture.willing (calls Fixture.long_path_engine)
       CSymGetSearchPathW = true
  /\ (exists e',
         SymDownloadAllSymbols [Fixture.app 0 None] Fixture.willing
           "C:\cache" None Fixture.long_path_engine = Done e'
         /\ exists added,
              calls e' = calls Fixture.long_path_engine ++ added
              /\ (forall Name, ~ In (CSymFromName Name) added)
              /\ forall path,
                   In (CSymSetSearchPathW path) added ->
                   path = ""
                   \/ path
                      = "SRV*C:\cache*https://msdl.microsoft.com/download/symbols"
                   \/ held_by_buffer MAX_PATH (Fixture.filler 300) path).
Proof.
  assert (Hne : [Fixture.app 0 None] <> []) by discriminate.
  assert (Hread : succeeds Fixture.willing (calls Fixture.long_path_engine)
                    CSymGetSearchPathW = true) by reflexivity.
  split; [exact Hne|]. split; [exact Hread|].
  eexists. split; [vm_compute; reflexivity|].
  destruct (SymDownloadAllSymbols_calls_allowed [Fixture.app 0 None]
              Fixture.willing "C:\cache" None Fixture.long_path_engine _
              Hne Hread ltac:(vm_compute; reflexivity))
    as (added & old & Hc & Hheld & _ & _ & Hname & Hpath & _).
  exists added. split; [exact Hc|]. split; [exact Hname|].
  intros path Hin. destruct (Hpath path Hin) as [H|[H|H]].
  - now left.
  - right. now left.
  - right. right. rewrite H. exact Hheld.
Defined.

(** X10.  When the five calls of a round succeed, the round ends the loop
    over the candidate paths if the engine reports a debug database for
    the module, leaving the candidates that remain untried; for any other
    report, export symbols among them, the loop goes on with the next
    candidate.  The engine is then as the five calls left it, with the
    search path set to the candidate of the round. *)
Theorem SymDownloadAllSymbols_round_status :
  forall double module cur_path rest e,
    round_succeeds double module cur_path e ->
    (round_symbol_type double module cur_path e = SymPdb ->
     SymDownloadAllSymbols_paths double module (cur_path :: rest) e
     = after_full_round double module cur_path e)
    /\ (round_symbol_type double module cur_path e <> SymPdb ->
        SymDownloadAllSymbols_paths double module (cur_path :: rest) e
        = SymDownloadAllSymbols_paths double module rest
            (after_full_round double module cur_path e)).
Proof.
  intros double module cur_path rest e H.
  rewrite (SymDownloadAllSymbols_full_round double module cur_path rest e H).
  split; intros Ht.
  - now rewrite Ht.
  - destruct (round_symbol_type double module cur_path e);
      congruence || reflexivity.
Qed.

Lemma SymDownloadAllSymbols_round_status_witness :
  round_succeeds Fixture.willing (snapshot_entry (Fixture.app 0 None)) ""
    Fixture.engine0
  /\ round_symbol_type Fixture.willing (snapshot_entry (Fixture.app 0 None)) ""
       Fixture.engine0 = SymPdb
  /\ SymDownloadAllSymbols_paths Fixture.willing
       (snapshot_entry (Fixture.app 0 None)) [""; "SRV*C:\cache*store"]
       Fixture.engine0
     = {| SymOptions := 146;
          SearchPath := "";
          calls := [CSymSetSearchPathW "";
                    CGetModuleFileNameExW 4194304;
                    CSymUnloadModule64 4194304;
                    CSymLoadModuleExW "C:\app.exe" 4194304;
                    CSymGetModuleInfoW64 4194304] |}.
Proof.
  assert (H : round_succeeds Fixture.willing
                (snapshot_entry (Fixture.app 0 None)) "" Fixture.engine0).
  { intros n _. reflexivity. }
  split; [exact H|]. split; [reflexivity|].
  exact (proj1 (SymDownloadAllSymbols_round_status Fixture.willing
                  (snapshot_entry (Fixture.app 0 None)) ""
                  ["SRV*C:\cache*store"] Fixture.engine0 H)
           eq_refl).
Defined.





(** X13.  The early exits of [SymDownloadAllSymbols].  With an empty
    directory the engine is not called at all.  With modules whose names
    fit, a failed read of the search path is the only call the engine
    receives: the option flags and the search path are not touched and no
    module is processed.  When a name does not fit, the call ends in the
    invalid-parameter handler before the engine is called. *)
Theorem SymDownloadAllSymbols_early_exits :
  forall modules double szSymbolCachePath SymbolStore e,
    (modules = [] ->
     SymDownloadAllSymbols modules double szSymbolCachePath SymbolStore e
     = Done e)
    /\ (names_fit modules -> modules <> [] ->
        succeeds double (calls e) CSymGetSearchPathW = false ->
        SymDownloadAllSymbols modules double szSymbolCachePath SymbolStore e
        = Done {| SymOptions := SymOptions e;
                  SearchPath := SearchPath e;
                  calls := calls e ++ [CSymGetSearchPathW] |})
    /\ (~ names_fit modules ->
        SymDownloadAllSymbols modules double szSymbolCachePath SymbolStore e
        = Crash InvalidParameter).
Proof.
  intros modules double cache SymbolStore e. split; [|split].
  - intros H. subst modules. reflexivity.
  - intros Hfit Hne Hread. unfold SymDownloadAllSymbols.
    rewrite (SymGetModuleList_fits modules [] Hfit). cbn [bind negb app].
    destruct modules as [|m ms]; [congruence|]. cbn [map].
    unfold SafeSymGetSearchPathW. rewrite Hread. reflexivity.
  - intros Hfit. unfold SymDownloadAllSymbols, SymGetModuleList, ModEnum.
    destruct (ModEnum_from_outcome modules []) as [[Hf _]|[_ Hr]];
      [contradiction|].
    rewrite Hr. reflexivity.
Qed.

Lemma SymDownloadAllSymbols_early_exits_witness :
  names_fit [Fixture.app 0 None]
  /\ succeeds Fixture.unreadable (calls Fixture.engine0) CSymGetSearchPathW
     = false
  /\ SymDownloadAllSymbols [Fixture.app 0 None] Fixture.unreadable
       "C:\cache" None Fixture.engine0
     = Done {| SymOptions := 146;
               SearchPath := "C:\symbols";
               calls := [CSymGetSearchPathW] |}.
Proof.
  assert (Hfit : names_fit [Fixture.app 0 None]).
  { unfold names_fit, MAX_MODULE_SIZE. repeat constructor; simpl; lia. }
  split; [exact Hfit|]. split; [reflexivity|].
  exact (proj1 (proj2 (SymDownloadAllSymbols_early_exits [Fixture.app 0 None]
                         Fixture.unreadable "C:\cache" None Fixture.engine0))
           Hfit ltac:(discriminate) eq_refl).
Defined.

(** ** More about the resolvers *)

(** X14.  [SymAddrFromName] never changes the option flags or the search
    path of the engine and asks it at most one question, a lookup of the
    name it was given.  It answers true only with an output pointer that is
    not null, and then the cell holds a value of pointer width; when it
    answers false the cell is as it was. *)
Theorem SymAddrFromName_frame :
  forall arch double Name Address e,
    let r := SymAddrFromName arch double Name Address e in
    SymOptions (snd r) = SymOptions e
    /\ SearchPath (snd r) = SearchPath e
    /\ (calls (snd r) = calls e
        \/ exists text, Name = Some text
                        /\ calls (snd r) = calls e ++ [CSymFromName text])
    /\ (fst (fst r) = true ->
        Address <> None
        /\ exists found, snd (fst r) = Some found
                         /\ 0 <= found < 2 ^ duint_bits arch)
    /\ (fst (fst r) = false -> snd (fst r) = Address).
Proof.
  intros arch double Name Address e. unfold SymAddrFromName.
  destruct Name as [[|c text]|];
    try (cbn; repeat split; auto; discriminate).
  destruct Address as [cell|];
    try (cbn; repeat split; auto; discriminate).
  destruct (CRT._strnicmp (String c text) "Ordinal" 7 =? 0);
    try (cbn; repeat split; auto; discriminate).
  unfold SafeSymFromName.
  destruct (succeeds double (calls e) (CSymFromName (String c text))).
  - cbn. repeat split; try discriminate.
    + right. exists (String c text). split; reflexivity.
    + eexists. split; [reflexivity|].
      unfold duint_cast. apply Z.mod_pos_bound. destruct arch; reflexivity.
  - cbn. repeat split; try discriminate.
    right. exists (String c text). split; reflexivity.
Qed.

Lemma SymAddrFromName_frame_witness :
  fst (fst (SymAddrFromName x32 Fixture.willing (Some "main") (Some 0)
              Fixture.engine0)) = true
  /\ exists found,
       snd (fst (SymAddrFromName x32 Fixture.willing (Some "main") (Some 0)
                   Fixture.engine0)) = Some found
       /\ 0 <= found < 2 ^ duint_bits x32.
Proof.
  split; [reflexivity|].
  exact (proj2 (proj1 (proj2 (proj2 (proj2
           (SymAddrFromName_frame x32 Fixture.willing (Some "main") (Some 0)
              Fixture.engine0))))
           eq_refl)).
Defined.

(** X15.  [SymGetSymbolicName] gives the empty string exactly when the
    address has no label and lies in no module; and a result that starts
    with [<] whenever the address has a label. *)
Theorem SymGetSymbolicName_empty :
  forall modules DbgGetLabelAt format_p Address,
    (SymGetSymbolicName modules DbgGetLabelAt format_p Address = ""
     <-> DbgGetLabelAt Address = None
         /\ ModInfoFromAddr modules Address = None)
    /\ (forall label,
           DbgGetLabelAt Address = Some label ->
           exists rest,
             SymGetSymbolicName modules DbgGetLabelAt format_p Address
             = String "<" rest).
Proof.
  intros modules DbgGetLabelAt format_p Address.
  unfold SymGetSymbolicName, ModNameFromAddr.
  destruct (DbgGetLabelAt Address) as [label|];
    destruct (ModInfoFromAddr modules Address) as [m|].
  - split; [split; [discriminate | intros [H _]; discriminate]|].
    intros l _. eexists. reflexivity.
  - split; [split; [discriminate | intros [H _]; discriminate]|].
    intros l _. eexists. reflexivity.
  - split; [|discriminate]. split; [|intros [_ H]; discriminate].
    intros H. exfalso.
    assert (L : String.length (name m ++ "." ++ format_p Address) = 0%nat)
      by now rewrite H.
    rewrite string_app_length in L. simpl in L. lia.
  - split; [|discriminate]. split; auto.
Qed.

Lemma SymGetSymbolicName_empty_witness :
  Fixture.labels 8 = None
  /\ ModInfoFromAddr [Fixture.app 0 None] 8 = None
  /\ SymGetSymbolicName [Fixture.app 0 None] Fixture.labels Fixture.hex 8 = "".
Proof.
  split; [reflexivity|]. split; [reflexivity|].
  exact (proj2 (proj1 (SymGetSymbolicName_empty [Fixture.app 0 None]
                         Fixture.labels Fixture.hex 8))
           (conj eq_refl eq_refl)).
Defined.

(** X16.  What [SymGetSourceLine] does with its output pointers.  A null
    pointer stays null.  When the answer is false no cell is touched.  When
    the answer is true the file path written is shorter than
    [MAX_STRING_SIZE] and holds no NUL.  The call ends in the
    invalid-parameter handler only when the file name pointer is not null
    and the path of the line found does not fit [MAX_STRING_SIZE]
    characters; with a null file name pointer it always returns. *)
Theorem SymGetSourceLine_outputs :
  forall arch modules Cip FileName Line disp,
    (forall ok FileName' Line' disp',
        SymGetSourceLine arch modules Cip FileName Line disp
        = Done (ok, (FileName', Line', disp')) ->
        (FileName = None -> FileName' = None)
        /\ (Line = None -> Line' = None)
        /\ (disp = None -> disp' = None)
        /\ (ok = false ->
            FileName' = FileName /\ Line' = Line /\ disp' = disp)
        /\ (ok = true ->
            forall path, FileName' = Some path ->
                         (String.length path < MAX_STRING_SIZE)%nat
                         /\ no_NUL path))
    /\ (forall f,
           SymGetSourceLine arch modules Cip FileName Line disp = Crash f ->
           f = InvalidParameter
           /\ FileName <> None
           /\ exists modInfo sym lineInfo,
                ModInfoFromAddr modules Cip = Some modInfo
                /\ symbols modInfo = Some sym
                /\ findSourceLineInfo sym (duint_sub arch Cip (base modInfo))
                   = Some lineInfo
                /\ (MAX_STRING_SIZE
                    <= String.length (CRT.c_str (sourceFile lineInfo)))%nat)
    /\ (FileName = None ->
        exists r, SymGetSourceLine arch modules Cip FileName Line disp = Done r).
Proof.
  intros arch modules Cip FileName Line disp. unfold SymGetSourceLine.
  destruct (ModInfoFromAddr modules Cip) as [modInfo|] eqn:Hm.
  2:{ split; [|split; [discriminate | eauto]].
      intros ok F L d H. inversion H. repeat split; auto; discriminate. }
  destruct (symbols modInfo) as [sym|] eqn:Hs.
  2:{ split; [|split; [discriminate | eauto]].
      intros ok F L d H. inversion H. repeat split; auto; discriminate. }
  destruct (is_EmptySymbolSource sym).
  { split; [|split; [discriminate | eauto]].
    intros ok F L d H. inversion H. repeat split; auto; discriminate. }
  destruct (findSourceLineInfo sym (duint_sub arch Cip (base modInfo)))
    as [lineInfo|] eqn:Hl.
  2:{ split; [|split; [discriminate | eauto]].
      intros ok F L d H. inversion H. repeat split; auto; discriminate. }
  destruct FileName as [old|].
  - unfold CRT.strcpy_s.
    destruct (String.length (CRT.c_str (sourceFile lineInfo))
              <? MAX_STRING_SIZE)%nat eqn:Hfit.
    + cbn [bind]. split; [|split; [discriminate | discriminate]].
      intros ok F L d H. inversion H. subst.
      split; [discriminate|].
      split; [intros E; now rewrite E|].
      split; [intros E; now rewrite E|].
      split; [discriminate|].
      intros _ path Hp. inversion Hp. subst path.
      split; [now apply Nat.ltb_lt | apply c_str_no_NUL].
    + cbn [bind]. split; [discriminate|]. split; [|discriminate].
      intros f H. inversion H. split; [reflexivity|].
      split; [discriminate|].
      exists modInfo, sym, lineInfo.
      split; [reflexivity|]. split; [exact Hs|]. split; [exact Hl|].
      now apply Nat.ltb_ge.
  - cbn [bind]. split; [|split; [discriminate | eauto]].
    intros ok F L d H. inversion H. subst.
    split; [reflexivity|].
    split; [intros E; now rewrite E|].
    split; [intros E; now rewrite E|].
    split; [discriminate|].
    intros _ path Hp. discriminate.
Qed.

Lemma SymGetSourceLine_outputs_witness :
  SymGetSourceLine x64 [Fixture.app 0 (Some (Fixture.source []))] 4198400
    (Some "") None (Some 5)
  = Done (true, (Some "main.c", None, Some 0))
  /\ (String.length "main.c" < MAX_STRING_SIZE)%nat.
Proof.
  assert (Hrun : SymGetSourceLine x64 [Fixture.app 0 (Some (Fixture.source []))]
                   4198400 (Some "") None (Some 5)
                 = Done (true, (Some "main.c", None, Some 0)))
    by (vm_compute; reflexivity).
  split; [exact Hrun|].
  exact (proj1 (proj2 (proj2 (proj2 (proj2
           (proj1 (SymGetSourceLine_outputs x64 _ _ _ _ _) _ _ _ _ Hrun))))
           eq_refl "main.c" eq_refl)).
Defined.

Lemma ModInfoFromAddr_contains : forall modules Address m,
  ModInfoFromAddr modules Address = Some m ->
  In m modules /\ base m <= Address < base m + size m.
Proof.
  intros modules Address m H. unfold ModInfoFromAddr in H.
  apply find_some in H. destruct H as [Hin Hb]. split; [exact Hin|].
  apply andb_true_iff in Hb. destruct Hb as [H1 H2].
  apply Z.leb_le in H1. apply Z.ltb_lt in H2. lia.
Qed.

(** X17.  When [SymGetSourceLine] answers true, the line it reports is the
    one the SymbolSource of a module of the directory holds for the offset
    of the address in that module: for a module that lies within the
    address space, the offset asked is the address minus the module base,
    without wrap-around, and is smaller than the module size. *)
Theorem SymGetSourceLine_offset :
  forall arch modules Cip FileName Line disp outs,
    SymGetSourceLine arch modules Cip FileName Line disp = Done (true, outs) ->
    exists modInfo sym lineInfo,
      In modInfo modules
      /\ symbols modInfo = Some sym
      /\ base modInfo <= Cip < base modInfo + size modInfo
      /\ findSourceLineInfo sym (duint_sub arch Cip (base modInfo))
         = Some lineInfo
      /\ snd (fst outs) = option_map (fun _ => lineNumber lineInfo) Line
      /\ (0 <= base modInfo ->
          base modInfo + size modInfo <= 2 ^ duint_bits arch ->
          duint_sub arch Cip (base modInfo) = Cip - base modInfo
          /\ 0 <= Cip - base modInfo < size modInfo).
Proof.
  intros arch modules Cip FileName Line disp outs H.
  unfold SymGetSourceLine in H.
  destruct (ModInfoFromAddr modules Cip) as [modInfo|] eqn:Hm; [|discriminate].
  destruct (symbols modInfo) as [sym|] eqn:Hs; [|discriminate].
  destruct (is_EmptySymbolSource sym); [discriminate|].
  destruct (findSourceLineInfo sym (duint_sub arch Cip (base modInfo)))
    as [lineInfo|] eqn:Hl; [|discriminate].
  apply ModInfoFromAddr_contains in Hm. destruct Hm as [Hin Hb].
  exists modInfo, sym, lineInfo.
  split; [exact Hin|]. split; [exact Hs|]. split; [exact Hb|].
  split; [exact Hl|]. split.
  - destruct FileName as [old|].
    + destruct (CRT.strcpy_s MAX_STRING_SIZE (CRT.c_str (sourceFile lineInfo)));
        [|discriminate].
      cbn in H. inversion H. reflexivity.
    + cbn in H. inversion H. reflexivity.
  - intros H0 Htop. split; [|lia].
    unfold duint_sub, duint_cast. apply Z.mod_small. lia.
Qed.

Lemma SymGetSourceLine_offset_witness :
  SymGetSourceLine x32 [Fixture.app 0 (Some (Fixture.source []))] 4198400
    None (Some 0) None
  = Done (true, (None, Some 12, None))
  /\ exists modInfo,
       In modInfo [Fixture.app 0 (Some (Fixture.source []))]
       /\ base modInfo <= 4198400 < base modInfo + size modInfo.
Proof.
  assert (Hrun : SymGetSourceLine x32 [Fixture.app 0 (Some (Fixture.source []))]
                   4198400 None (Some 0) None
                 = Done (true, (None, Some 12, None)))
    by (vm_compute; reflexivity).
  split; [exact Hrun|].
  destruct (SymGetSourceLine_offset _ _ _ _ _ _ _ Hrun)
    as (modInfo & sym & lineInfo & Hin & _ & Hb & _).
  exists modInfo. split; [exact Hin | exact Hb].
Defined.
